(** * reSIDfp waveform calculator: combined-waveform lookup tables

    Shallow embedding of [WaveformCalculator.cpp] (libsidplayfp, reSIDfp
    builder) and the properties of its tables.

    - C integers are [Z] with the width of each conversion written out.
    - [float] is IEEE-754 binary32 and [double] binary64, both carried by
      [spec_float] with the operations of [SpecFloat] at the matching
      precision; every operation rounds to nearest-even, in the format
      of its type (no wider intermediate results, no fused operations).
    - [pow] comes from the C math library and is a parameter of the model.
    - Storage that the program allocates without initialising it starts
      with arbitrary contents, also a parameter of the model.
    - [PULLDOWN_CACHE] is a finite map from the address of a parameter
      array to the heap node that owns the table built from it.  Calls
      are taken one after the other: the lock is not modelled. *)

From Stdlib Require Import ZArith List Bool Lia SpecFloat.
From stdpp Require Import base option list gmap.

Local Open Scope Z_scope.

(** ** C integer conversions *)

Module CInt.

(** [unsigned int]: 32 bits, arithmetic modulo [2^32]. *)
Definition to_uint (z : Z) : Z := z mod 4294967296.

(** [int]: 32 bits, two's complement. *)
Definition to_int (z : Z) : Z :=
  let r := z mod 4294967296 in
  if r <? 2147483648 then r else r - 4294967296.

(** [short]: 16 bits, two's complement. *)
Definition to_short (z : Z) : Z :=
  let r := z mod 65536 in
  if r <? 32768 then r else r - 65536.

(** [a << n] on [unsigned int]. *)
Definition shl_uint (a : Z) (n : Z) : Z := to_uint (Z.shiftl a n).

End CInt.

(** ** Loops and arrays *)

(** [for (i = lo; i < lo + n; i++) body], threading the loop's state. *)
Definition for_loop {S : Type} (lo n : nat) (body : nat -> S -> S) (s : S) : S :=
  fold_left (fun st i => body i st) (seq lo n) s.

(** Modelled from the spec: [matrix_t] is declared in a header that is
    not among the sources; the spec has it as a 2-D table of signed
    integers, here rows of [short] cells. *)
Abbreviation matrix_t := (list (list Z)).

(** [matrix_t m(rows, cols)]: the cells are allocated, not initialised;
    [cell r c] is whatever the storage holds. *)
Definition matrix_alloc (cell : nat -> nat -> Z) (rows cols : nat) : matrix_t :=
  map (fun r => map (cell r) (seq 0 cols)) (seq 0 rows).

(** [m[r][c] = v], the value converted to [short]. *)
Definition matrix_set (m : matrix_t) (r c : nat) (v : Z) : matrix_t :=
  alter (fun row => <[c := CInt.to_short v]> row) r m.

(** [m[r][c]]. *)
Definition matrix_get (m : matrix_t) (r c : nat) : option Z :=
  row ← m !! r; row !! c.

(** [m] has [rows] rows of [cols] cells. *)
Definition matrix_dims (m : matrix_t) (rows cols : nat) : Prop :=
  length m = rows /\ Forall (fun row => length row = cols) m.

(** ** Basic waveforms *)

(** Calculate triangle waveform. *)
Definition triXor (val : Z) : Z :=
  CInt.shl_uint (if Z.land val 0x800 =? 0 then val else Z.lxor val 0xfff) 1.

Record WaveformCalculator_t := { wftable : matrix_t }.

(** The constructor: [wftable(4, 4096)] filled for every 12-bit index. *)
Definition WaveformCalculator_body (idx : nat) (wf : matrix_t) : matrix_t :=
  let saw := CInt.to_short (Z.of_nat idx) in
  let tri := CInt.to_short (triXor (Z.of_nat idx)) in
  let wf := matrix_set wf 0 idx 0xfff in
  let wf := matrix_set wf 1 idx tri in
  let wf := matrix_set wf 2 idx saw in
  matrix_set wf 3 idx (Z.land saw (CInt.to_int (Z.shiftl saw 1))).

Definition WaveformCalculator (cell : nat -> nat -> Z) : WaveformCalculator_t :=
  {| wftable := for_loop 0 4096 WaveformCalculator_body (matrix_alloc cell 4 4096) |}.


(** ** Floating point *)

(** [float] and [double] values; the precision is in the operations. *)
Abbreviation float := spec_float.
Abbreviation double := spec_float.

Module Float.

Definition prec : Z := 24.
Definition emax : Z := 128.

Definition zero : float := S754_zero false.
Definition one : float := SFone prec emax.

Definition add : float -> float -> float := SFadd prec emax.
Definition sub : float -> float -> float := SFsub prec emax.
Definition mul : float -> float -> float := SFmul prec emax.
Definition div : float -> float -> float := SFdiv prec emax.

(** [a > b]; false when either side is a NaN. *)
Definition gt (a b : float) : bool := SFltb b a.

(** [int] to [float]. *)
Definition of_int (z : Z) : float := binary_normalize prec emax z 0 false.

(** A decimal literal [digits * 10^-scale] with suffix [f], rounded to
    the nearest [float]: [0.877322257f] is [dec 877322257 9]. *)
Definition dec (digits : Z) (scale : nat) : float :=
  let pow10 := S754_finite false (Z.to_pos (10 ^ Z.of_nat scale)) 0 in
  match digits with
  | Z0 => zero
  | Zpos m => div (S754_finite false m 0) pow10
  | Zneg m => div (S754_finite true m 0) pow10
  end.

(** Neither a NaN nor an infinity. *)
Definition is_finite (x : float) : bool :=
  match x with
  | S754_zero _ | S754_finite _ _ _ => true
  | _ => false
  end.

(** Finite and different from zero. *)
Definition is_finite_nonzero (x : float) : bool :=
  match x with
  | S754_finite _ _ _ => true
  | _ => false
  end.

End Float.

Module Double.

Definition prec : Z := 53.
Definition emax : Z := 1024.

(** [int] to [double] (exact). *)
Definition of_int (z : Z) : double := binary_normalize prec emax z 0 false.

(** [float] to [double] (exact). *)
Definition of_float (x : float) : double :=
  match x with
  | S754_finite s m e => binary_round prec emax s m e
  | _ => x
  end.

(** [double] to [float], rounded to nearest. *)
Definition to_float (x : double) : float :=
  match x with
  | S754_finite s m e => binary_round Float.prec Float.emax s m e
  | _ => x
  end.

End Double.

(** Decimal literals of the source, read as [float]: [0.877322257%flt]
    stands for [0.877322257f]. *)
Definition float_of_number (n : Number.number) : option spec_float :=
  match n with
  | Number.Decimal (Decimal.Decimal i f) =>
      Some (Float.dec (Z.of_int (Decimal.app_int i f)) (Decimal.nb_digits f))
  | _ => None
  end.

Definition number_of_float (x : spec_float) : option Number.number := None.

Declare Scope float_scope.
Delimit Scope float_scope with flt.
Number Notation spec_float float_of_number number_of_float : float_scope.
Bind Scope float_scope with spec_float.

(** Structural equality of floating-point data. *)
Definition float_eqb (x y : spec_float) : bool :=
  match x, y with
  | S754_zero a, S754_zero b => Bool.eqb a b
  | S754_infinity a, S754_infinity b => Bool.eqb a b
  | S754_nan, S754_nan => true
  | S754_finite a m e, S754_finite b n f => Bool.eqb a b && Pos.eqb m n && Z.eqb e f
  | _, _ => false
  end.

#[global] Instance float_inhabited : Inhabited spec_float := populate S754_nan.

(** ** The C library's [pow]

    [pow] is not part of the program.  What the proofs about the parameter
    tables need from it is stated as [Libm.faithful]: on a positive finite
    base and a negative integer exponent it returns one of the two doubles
    that enclose the exact power. *)

Module Libm.

(** The integer a [double] denotes, if any. *)
Definition int_of_double (y : double) : option Z :=
  match y with
  | S754_zero _ => Some 0
  | S754_finite s m e =>
      let v := if 0 <=? e then Some (Zpos m * 2 ^ e)
               else if Zpos m mod 2 ^ (- e) =? 0 then Some (Zpos m / 2 ^ (- e))
               else None in
      if s then Z.opp <$> v else v
  | _ => None
  end.

(** [x ^ i] for a positive finite [x] and [0 < i], not rounded. *)
Definition exact_pow (m : positive) (e : Z) (i : Z) : spec_float :=
  S754_finite false (Z.to_pos (Zpos m ^ i)) (e * i).

(** The double nearest to [x ^ (- i)]. *)
Definition nearest (x : double) (i : Z) : double :=
  match x with
  | S754_finite false m e =>
      SFdiv Double.prec Double.emax (S754_finite false 1 0) (exact_pow m e i)
  | _ => S754_nan
  end.

(** How the double [r] compares with the exact [x ^ (- i)], that is, how
    [r * x ^ i] compares with [1]. *)
Definition compare_exact (r : double) (m : positive) (e : Z) (i : Z) : comparison :=
  match r with
  | S754_finite false mr er =>
      let p := Zpos mr * Zpos m ^ i in
      let k := er + e * i in
      if 0 <=? k then (p * 2 ^ k ?= 1) else (p ?= 2 ^ (- k))
  | S754_infinity false => Gt
  | _ => Lt
  end.

(** The doubles that enclose the exact [x ^ (- i)], given the nearest
    one [r]: [r] and its neighbour on the side of the exact value. *)
Definition neighbours_of (r : double) (x : double) (i : Z) : list double :=
  match x with
  | S754_finite false m e =>
      match compare_exact r m e i with
      | Eq => [r]
      | Lt => [r; SFsucc Double.prec Double.emax r]
      | Gt => [SFpred Double.prec Double.emax r; r]
      end
  | _ => [r]
  end.

Definition neighbours (x : double) (i : Z) : list double :=
  neighbours_of (nearest x i) x i.

Definition positive_finite (x : float) : bool :=
  match x with
  | S754_finite false _ _ => true
  | _ => false
  end.

(** What is assumed of the library. *)
Definition faithful (pow : double -> double -> double) : Prop :=
  forall (x : float) (i : Z),
    positive_finite x = true -> 1 <= i <= 12 ->
    In (pow (Double.of_float x) (Double.of_int (- i)))
       (neighbours (Double.of_float x) i).

(** A [pow] that rounds to nearest on negative integer exponents (and
    says nothing elsewhere). *)
Definition pow_nearest (x y : double) : double :=
  match int_of_double y with
  | Some k => if k <? 0 then nearest x (- k) else S754_nan
  | None => S754_nan
  end.

End Libm.

(** ** Combined waveform model parameters *)

Abbreviation distance_t := (float -> Z -> float).

Record CombinedWaveformConfig := {
  distFunc : distance_t;
  threshold : float;
  topbit : float;
  pulsestrength : float;
  distance1 : float;
  distance2 : float
}.

#[global] Instance config_inhabited : Inhabited CombinedWaveformConfig :=
  populate {| distFunc := fun _ _ => S754_nan; threshold := S754_nan; topbit := S754_nan;
              pulsestrength := S754_nan; distance1 := S754_nan; distance2 := S754_nan |}.

(** The three arrays of parameters; the cache is keyed by the address of
    one of their rows. *)
Inductive config_array := ConfigAverage | ConfigWeak | ConfigStrong.

#[global] Instance config_array_eq_dec : EqDecision config_array.
Proof. solve_decision. Defined.

Definition config_array_code (t : config_array) : nat :=
  match t with ConfigAverage => 0 | ConfigWeak => 1 | ConfigStrong => 2 end.

Definition config_array_of_code (n : nat) : config_array :=
  match n with 0%nat => ConfigAverage | 1%nat => ConfigWeak | _ => ConfigStrong end.

#[global] Instance config_array_countable : Countable config_array :=
  inj_countable' config_array_code config_array_of_code
    (fun t => match t with
              | ConfigAverage | ConfigWeak | ConfigStrong => eq_refl
              end).

(** [const CombinedWaveformConfig*]: the row [configX[modelIdx]]. *)
Abbreviation cfg_ptr := (config_array * nat)%type.

(** Modelled from the spec: the enumerations [ChipModel] and
    [CombinedWaveforms] are declared in a header that is not among the
    sources; the spec has two chip models and three variance classes.  A
    value of a C++ enumeration type need not be one of its enumerators:
    [_other] stands for the remaining values. *)
Inductive ChipModel := MOS6581 | MOS8580 | ChipModel_other (raw : Z).
Inductive CombinedWaveforms := AVERAGE | WEAK | STRONG | CombinedWaveforms_other (raw : Z).

(** Heap and globals.  A node of [PULLDOWN_CACHE] lives at an address
    that never changes; [heap] holds the table of each node.
    [pulldown_builds] is a ghost counter of table computations. *)
Record state := {
  PULLDOWN_CACHE : gmap cfg_ptr nat;
  heap : gmap nat matrix_t;
  pulldown_builds : nat
}.

Definition initial_state : state :=
  {| PULLDOWN_CACHE := ∅; heap := ∅; pulldown_builds := 0 |}.

(** [*p] for a [matrix_t* p]. *)
Definition deref (st : state) (p : nat) : option matrix_t := heap st !! p.

Section Program.

(** The C library's [pow]. *)
Variable pow : double -> double -> double.

(** Contents of storage that is allocated but not initialised: local
    [float] arrays and fresh matrices. *)
Variable junk_float : nat -> float.
Variable junk_short : nat -> nat -> Z.

Definition float_array (n : nat) : list float := map junk_float (seq 0 n).

(** *** Distance functions *)

Definition exponentialDistance (distance : float) (i : Z) : float :=
  Double.to_float (pow (Double.of_float distance) (Double.of_int (CInt.to_int (- i)))).

Definition linearDistance (distance : float) (i : Z) : float :=
  Float.div 1%flt (Float.add 1%flt (Float.mul (Float.of_int i) distance)).

Definition quadraticDistance (distance : float) (i : Z) : float :=
  Float.div 1%flt (Float.add 1%flt (Float.mul (Float.of_int (CInt.to_int (i * i))) distance)).

(** *** Parameters derived with the Monte Carlo method *)

Definition configAverage : list (list CombinedWaveformConfig) :=
  [ (* 6581 R3 0486S sampled by Trurl *)
    [ (* TS *)
      {| distFunc := exponentialDistance; threshold := 0.877322257; topbit := 1.11349654;
         pulsestrength := 0.0; distance1 := 2.14537621; distance2 := 9.08618164 |};
      (* PT *)
      {| distFunc := linearDistance; threshold := 0.941692829; topbit := 1.0;
         pulsestrength := 1.80072665; distance1 := 0.033124879; distance2 := 0.232303441 |};
      (* PS *)
      {| distFunc := linearDistance; threshold := 1.66494179; topbit := 1.03760982;
         pulsestrength := 5.62705326; distance1 := 0.291590303; distance2 := 0.283631504 |};
      (* PTS *)
      {| distFunc := linearDistance; threshold := 1.09762526; topbit := 0.975265801;
         pulsestrength := 1.52196741; distance1 := 0.151528224; distance2 := 0.841949463 |};
      (* NP *)
      {| distFunc := exponentialDistance; threshold := 0.96; topbit := 1.0;
         pulsestrength := 2.5; distance1 := 1.1; distance2 := 1.2 |} ];
    (* 8580 R5 1088 sampled by reFX-Mike *)
    [ (* TS *)
      {| distFunc := exponentialDistance; threshold := 0.841851234; topbit := 1.09233654;
         pulsestrength := 0.0; distance1 := 1.85262764; distance2 := 6.22224379 |};
      (* PT *)
      {| distFunc := exponentialDistance; threshold := 0.929835618; topbit := 1.0;
         pulsestrength := 1.12836814; distance1 := 1.10453653; distance2 := 1.48065746 |};
      (* PS *)
      {| distFunc := quadraticDistance; threshold := 0.911938608; topbit := 0.996440411;
         pulsestrength := 1.2278074; distance1 := 0.000117214302; distance2 := 0.18948476 |};
      (* PTS *)
      {| distFunc := exponentialDistance; threshold := 0.932317019; topbit := 1.03892183;
         pulsestrength := 1.2068342; distance1 := 0.891974986; distance2 := 1.42451835 |};
      (* NP *)
      {| distFunc := exponentialDistance; threshold := 0.95; topbit := 1.0;
         pulsestrength := 1.15; distance1 := 1.0; distance2 := 1.45 |} ] ].

Definition configWeak : list (list CombinedWaveformConfig) :=
  [ (* 6581 R2 4383 sampled by ltx128 *)
    [ (* TS *)
      {| distFunc := exponentialDistance; threshold := 0.886832297; topbit := 1.0;
         pulsestrength := 0.0; distance1 := 2.14438701; distance2 := 9.51839447 |};
      (* PT *)
      {| distFunc := linearDistance; threshold := 1.01262534; topbit := 1.0;
         pulsestrength := 2.46070528; distance1 := 0.0537485816; distance2 := 0.0986242667 |};
      (* PS *)
      {| distFunc := linearDistance; threshold := 2.14896345; topbit := 1.0216713;
         pulsestrength := 10.5400085; distance1 := 0.244498149; distance2 := 0.126134038 |};
      (* PTS *)
      {| distFunc := linearDistance; threshold := 1.29061747; topbit := 0.9754318;
         pulsestrength := 3.15377498; distance1 := 0.0968349651; distance2 := 0.318573922 |};
      (* NP *)
      {| distFunc := exponentialDistance; threshold := 0.96; topbit := 1.0;
         pulsestrength := 2.5; distance1 := 1.1; distance2 := 1.2 |} ];
    (* 8580 R5 4887 sampled by reFX-Mike *)
    [ (* TS *)
      {| distFunc := exponentialDistance; threshold := 0.816124022; topbit := 1.31208789;
         pulsestrength := 0.0; distance1 := 1.92347884; distance2 := 2.35027933 |};
      (* PT *)
      {| distFunc := exponentialDistance; threshold := 0.917997837; topbit := 1.0;
         pulsestrength := 1.01248944; distance1 := 1.05761552; distance2 := 1.37529826 |};
      (* PS *)
      {| distFunc := quadraticDistance; threshold := 0.970038712; topbit := 1.00844693;
         pulsestrength := 1.30298805; distance1 := 0.0097996993; distance2 := 0.146854922 |};
      (* PTS *)
      {| distFunc := exponentialDistance; threshold := 0.941834152; topbit := 1.06401193;
         pulsestrength := 0.991132736; distance1 := 0.995310068; distance2 := 1.41105855 |};
      (* NP *)
      {| distFunc := exponentialDistance; threshold := 0.95; topbit := 1.0;
         pulsestrength := 1.15; distance1 := 1.0; distance2 := 1.45 |} ] ].

Definition configStrong : list (list CombinedWaveformConfig) :=
  [ (* 6581 R2 0384 sampled by Trurl *)
    [ (* TS *)
      {| distFunc := exponentialDistance; threshold := 0.000637792516; topbit := 1.56725872;
         pulsestrength := 0.0; distance1 := 0.00036806846; distance2 := 1.51800942 |};
      (* PT *)
      {| distFunc := linearDistance; threshold := 0.924824238; topbit := 1.0;
         pulsestrength := 1.96749473; distance1 := 0.0891806409; distance2 := 0.234794483 |};
      (* PS *)
      {| distFunc := linearDistance; threshold := 1.2328074; topbit := 0.73079139;
         pulsestrength := 3.9719491; distance1 := 0.00156516861; distance2 := 0.314677745 |};
      (* PTS *)
      {| distFunc := linearDistance; threshold := 1.08558261; topbit := 0.857638359;
         pulsestrength := 1.52781796; distance1 := 0.152927235; distance2 := 1.02657032 |};
      (* NP *)
      {| distFunc := exponentialDistance; threshold := 0.96; topbit := 1.0;
         pulsestrength := 2.5; distance1 := 1.1; distance2 := 1.2 |} ];
    (* 8580 R5 1489 sampled by reFX-Mike *)
    [ (* TS *)
      {| distFunc := exponentialDistance; threshold := 0.89762634; topbit := 56.7594185;
         pulsestrength := 0.0; distance1 := 7.68995237; distance2 := 12.0754194 |};
      (* PT *)
      {| distFunc := exponentialDistance; threshold := 0.867885351; topbit := 1.0;
         pulsestrength := 1.4511894; distance1 := 1.07057536; distance2 := 1.43333757 |};
      (* PS *)
      {| distFunc := quadraticDistance; threshold := 0.89255774; topbit := 1.2253896;
         pulsestrength := 1.75615835; distance1 := 0.0245045591; distance2 := 0.12982437 |};
      (* PTS *)
      {| distFunc := linearDistance; threshold := 0.91124934; topbit := 0.963609755;
         pulsestrength := 0.909965038; distance1 := 1.07445884; distance2 := 1.82399702 |};
      (* NP *)
      {| distFunc := exponentialDistance; threshold := 0.95; topbit := 1.0;
         pulsestrength := 1.15; distance1 := 1.0; distance2 := 1.45 |} ] ].

(** The row a [cfg_ptr] points to. *)
Definition config_row (p : cfg_ptr) : list CombinedWaveformConfig :=
  match p.1 with
  | ConfigAverage => configAverage !!! p.2
  | ConfigWeak => configWeak !!! p.2
  | ConfigStrong => configStrong !!! p.2
  end.

(** *** Generate bitstate based on emulation of combined waves pulldown *)

(** One turn of the loop over [cb], on the pair [(avg, n)]. *)
Definition pulldown_cb (distancetable bit : list float) (sb cb : nat)
    (st : float * float) : float * float :=
  if (cb =? sb)%nat then st
  else
    let weight := distancetable !!! Z.to_nat (Z.of_nat sb - Z.of_nat cb + 12) in
    (Float.add st.1 (Float.mul (Float.sub 1%flt (bit !!! cb)) weight),
     Float.add st.2 weight).

(** The sums [(avg, n)] after the loop over [cb]. *)
Definition pulldown_sums (distancetable bit : list float) (sb : nat) : float * float :=
  for_loop 0 12 (pulldown_cb distancetable bit sb) (0%flt, 0%flt).

(** One turn of the loop over [sb]. *)
Definition pulldown_sb (distancetable bit : list float) (pulsestrength : float)
    (sb : nat) (pulldown : list float) : list float :=
  let '(avg, n) := pulldown_sums distancetable bit sb in
  let avg := Float.sub avg pulsestrength in
  <[sb := Float.div avg n]> pulldown.

(** The array [bit] once filled and scaled. *)
Definition pulldown_bits (topbit : float) (accumulator : Z) : list float :=
  let bit :=
    for_loop 0 12
      (fun i bit =>
         <[i := if negb (Z.land accumulator (CInt.shl_uint 1 (Z.of_nat i)) =? 0)
                then 1%flt else 0%flt]> bit)
      (float_array 12) in
  <[11%nat := Float.mul (bit !!! 11%nat) topbit]> bit.

(** One turn of the last loop: get the predicted value. *)
Definition pulldown_value (bit pulldown : list float) (threshold : float)
    (i : nat) (value : Z) : Z :=
  let bitValue :=
    if Float.gt (bit !!! i) 0%flt then Float.sub 1%flt (pulldown !!! i) else 0%flt in
  if Float.gt bitValue threshold
  then CInt.to_short (Z.lor (CInt.to_uint value) (CInt.shl_uint 1 (Z.of_nat i)))
  else value.

Definition calculatePulldown (distancetable : list float)
    (topbit pulsestrength threshold : float) (accumulator : Z) : Z :=
  let bit := pulldown_bits topbit accumulator in
  let pulldown :=
    for_loop 0 12 (pulldown_sb distancetable bit pulsestrength) (float_array 12) in
  for_loop 0 12 (pulldown_value bit pulldown threshold) 0.

(** *** The table cache *)

(** [for (int i = 12; i > 0; i--)] of [buildPulldownTable]. *)
Definition distancetable_fill (distFunc : distance_t) (distance1 distance2 : float)
    (dt : list float) : list float :=
  fold_left
    (fun dt i =>
       let dt := <[(12 - i)%nat := distFunc distance1 (Z.of_nat i)]> dt in
       <[(12 + i)%nat := distFunc distance2 (Z.of_nat i)]> dt)
    (rev (seq 1 12)) dt.

Definition build_distancetable (cfg : CombinedWaveformConfig) : list float :=
  distancetable_fill (distFunc cfg) (distance1 cfg) (distance2 cfg)
    (<[12%nat := 1%flt]> (float_array (12 * 2 + 1))).

(** One turn of the loop over [wav]. *)
Definition pdTable_wav (cfgArray : list CombinedWaveformConfig) (wav : nat)
    (pdTable : matrix_t) : matrix_t :=
  let cfg := cfgArray !!! wav in
  let distancetable := build_distancetable cfg in
  for_loop 0 4096
    (fun idx pdTable =>
       matrix_set pdTable wav idx
         (calculatePulldown distancetable (topbit cfg) (pulsestrength cfg)
            (threshold cfg) (Z.of_nat idx)))
    pdTable.

(** The table computed on a cache miss. *)
Definition build_pdTable (cfgArray : list CombinedWaveformConfig) : matrix_t :=
  for_loop 0 5 (pdTable_wav cfgArray) (matrix_alloc junk_short 5 4096).

(** The parameter row selected by the model and the variance class. *)
Definition select_cfgArray (model : ChipModel) (cws : CombinedWaveforms) : cfg_ptr :=
  let modelIdx := match model with MOS6581 => 0%nat | _ => 1%nat end in
  match cws with
  | WEAK => (ConfigWeak, modelIdx)
  | STRONG => (ConfigStrong, modelIdx)
  | _ (* default, AVERAGE *) => (ConfigAverage, modelIdx)
  end.

(** [buildPulldownTable]: the address of the table and the new state.
    [lower_bound] followed by the [key_comp] test finds the node whose
    key is [cfgArray], if there is one; [emplace_hint] adds a node. *)
Definition buildPulldownTable (model : ChipModel) (cws : CombinedWaveforms)
    (st : state) : nat * state :=
  let cfgArray := select_cfgArray model cws in
  match PULLDOWN_CACHE st !! cfgArray with
  | Some node => (node, st)
  | None =>
      let pdTable := build_pdTable (config_row cfgArray) in
      let node := fresh (dom (heap st)) in
      (node,
       {| PULLDOWN_CACHE := <[cfgArray := node]> (PULLDOWN_CACHE st);
          heap := <[node := pdTable]> (heap st);
          pulldown_builds := S (pulldown_builds st) |})
  end.

End Program.

(** * Notions used in the statements *)

(** ** Basic waveform table *)

(** What the constructor's loop stores for the index [phase], in the
    code's terms. *)
Definition wf_cell (row : nat) (phase : Z) : Z :=
  let saw := CInt.to_short phase in
  match row with
  | 0%nat => CInt.to_short 0xfff
  | 1%nat => CInt.to_short (CInt.to_short (triXor phase))
  | 2%nat => CInt.to_short saw
  | _ => CInt.to_short (Z.land saw (CInt.to_int (Z.shiftl saw 1)))
  end.

(** The stored values, phase by phase, in the words of the description. *)
Definition wf_cell_check (phase : Z) : bool :=
  (wf_cell 0 phase =? 4095) &&
  (wf_cell 1 phase =? (if Z.testbit phase 11 then Z.shiftl (Z.lxor phase 0xFFF) 1
                       else Z.shiftl phase 1)) &&
  (wf_cell 2 phase =? phase) &&
  (wf_cell 3 phase =? Z.land phase (Z.shiftl phase 1)) &&
  (0 <=? wf_cell 1 phase) && (wf_cell 1 phase <=? 4094).

(** The integers [z, z + 1, ..., z + n - 1]. *)
Fixpoint zseq (z : Z) (n : nat) : list Z :=
  match n with
  | O => []
  | S k => z :: zseq (z + 1) k
  end.

(** ** Pulldown calculator, in the words of its description *)

(** Sum of a list of [float]s, from the left, starting at [0.f]. *)
Definition fsum (l : list float) : float := fold_left Float.add l 0%flt.

(** The bit positions [cb] other than [sb], in increasing order. *)
Definition others (sb : nat) : list nat :=
  List.filter (fun cb => negb (cb =? sb)%nat) (seq 0 12).

(** [bit[i]] for a set or a clear accumulator bit: [1.0] or [0.0]; bit 11
    is also multiplied by [topbit]. *)
Definition bit_of (topbit : float) (set : bool) (i : nat) : float :=
  let b := if set then 1%flt else 0%flt in
  if (i =? 11)%nat then Float.mul b topbit else b.

(** [bit[i]]: [1.0] if accumulator bit [i] is set, else [0.0]; bit 11 is
    also multiplied by [topbit]. *)
Definition spec_bit (topbit : float) (accumulator : Z) (i : nat) : float :=
  bit_of topbit (Z.testbit accumulator (Z.of_nat i)) i.

(** The weight of position [cb] for the output bit [sb]. *)
Definition spec_weight (distancetable : list float) (sb cb : nat) : float :=
  distancetable !!! Z.to_nat (Z.of_nat sb - Z.of_nat cb + 12).

(** The divisor: the sum of the weights of the other positions. *)
Definition spec_n (distancetable : list float) (sb : nat) : float :=
  fsum (map (spec_weight distancetable sb) (others sb)).

(** The pulldown fraction of output bit [sb]. *)
Definition spec_pulldown (distancetable : list float) (topbit pulsestrength : float)
    (accumulator : Z) (sb : nat) : float :=
  Float.div
    (Float.sub
       (fsum (map (fun cb => Float.mul (Float.sub 1%flt (spec_bit topbit accumulator cb))
                               (spec_weight distancetable sb cb))
                (others sb)))
       pulsestrength)
    (spec_n distancetable sb).

(** The test of the last loop of [calculatePulldown] at position [i]:
    [bitValue > threshold]. *)
Definition out_bit (bit pulldown : list float) (threshold : float) (i : nat) : bool :=
  Float.gt
    (if Float.gt (bit !!! i) 0%flt then Float.sub 1%flt (pulldown !!! i) else 0%flt)
    threshold.

(** ** The cache *)

(** Every cached key leads to the table computed from the parameter row
    it points to. *)
Definition cache_ok (pow : double -> double -> double) (junk_float : nat -> float)
    (junk_short : nat -> nat -> Z) (st : state) : Prop :=
  forall (key : cfg_ptr) (node : nat),
    PULLDOWN_CACHE st !! key = Some node ->
    heap st !! node = Some (build_pdTable junk_float junk_short (config_row pow key)).

(** Every cell of [m] in the first [rows] rows and [cols] columns
    satisfies [P]. *)
Definition matrix_cells (P : Z -> Prop) (m : matrix_t) (rows cols : nat) : Prop :=
  forall r c, (r < rows)%nat -> (c < cols)%nat ->
    exists v, matrix_get m r c = Some v /\ P v.

(** ** The divisor of the pulldown fraction *)

(** Whatever a faithful [pow] returns for [distance ^ (- i)], the [float]
    it is converted to is the same. *)
Definition narrow_agree (distance : float) (i : Z) : bool :=
  let x := Double.of_float distance in
  let r := Libm.nearest x i in
  let f := Double.to_float r in
  Libm.positive_finite distance &&
  forallb (fun c => float_eqb (Double.to_float c) f) (Libm.neighbours_of r x i).

(** The magnitude of a finite number: [|x| < 2 ^ p], and [p] is not
    below the exponent of the smallest number. *)
Definition mag (x : float) : option Z :=
  match x with
  | S754_zero _ => Some (-149)
  | S754_finite _ m e => Some (Z.max (Zpos (digits2_pos m) + e) (-149))
  | _ => None
  end.

(** The term position [cb] adds to [avg] for the output bit [sb], for a
    set or a clear accumulator bit [cb]. *)
Definition pulldown_term (distancetable : list float) (topbit : float) (sb cb : nat)
    (set : bool) : float :=
  Float.mul (Float.sub 1%flt (bit_of topbit set cb)) (spec_weight distancetable sb cb).

(** A magnitude of the term of [cb], whatever the accumulator bit. *)
Definition term_mag (distancetable : list float) (topbit : float) (sb cb : nat) : option Z :=
  m0 ← mag (pulldown_term distancetable topbit sb cb false);
  m1 ← mag (pulldown_term distancetable topbit sb cb true);
  Some (Z.max m0 m1).

(** A sum of two numbers below [2 ^ a] and [2 ^ m] is, once rounded, below
    [2 ^ (max a m + 2)]; it is finite when that is at most [2 ^ 128]. *)
Definition sum_mag (a m : Z) : option Z :=
  let r := Z.max a m + 2 in
  if r <=? 128 then Some r else None.

(** A magnitude of [avg] after the turns [l] of the loop over [cb]. *)
Definition avg_mag (distancetable : list float) (topbit : float) (sb : nat)
    (l : list nat) (a : option Z) : option Z :=
  fold_left
    (fun st cb => a ← st; m ← term_mag distancetable topbit sb cb; sum_mag a m)
    l a.

(** The magnitudes show that [avg / n] is finite for the output bit [sb],
    whatever the accumulator. *)
Definition pulldown_check (distancetable : list float) (topbit pulsestrength : float)
    (sb : nat) : bool :=
  match avg_mag distancetable topbit sb (others sb) (Some (-149)),
        mag pulsestrength, spec_n distancetable sb with
  | Some a, Some p, S754_finite _ my ey =>
      match (match pulsestrength with S754_zero _ => Some a | _ => sum_mag a p end) with
      | Some a' => Z.max (a' - (Zpos (digits2_pos my) + ey) + 1) (-149) + 1 <=? 128
      | None => false
      end
  | _, _, _ => false
  end.

(** The check behind the finiteness of the divisor and of the pulldown
    fraction, for one parameter entry: its distances pass [narrow_agree];
    for every output bit the weights add up to a finite number other than
    zero, and the magnitudes show the pulldown fraction finite. *)
Definition divisor_check (cfg : CombinedWaveformConfig) : bool :=
  forallb (fun i => narrow_agree (distance1 cfg) i && narrow_agree (distance2 cfg) i)
    (zseq 1 11) &&
  let distancetable := build_distancetable (fun _ => S754_nan) cfg in
  forallb
    (fun sb =>
       Float.is_finite_nonzero (spec_n distancetable sb) &&
       pulldown_check distancetable (topbit cfg) (pulsestrength cfg) sb)
    (seq 0 12).

(** The six parameter rows. *)
Definition all_rows : list cfg_ptr :=
  [(ConfigAverage, 0%nat); (ConfigAverage, 1%nat); (ConfigWeak, 0%nat);
   (ConfigWeak, 1%nat); (ConfigStrong, 0%nat); (ConfigStrong, 1%nat)].

(** Two parameter entries that differ at most by the [pow] behind their
    exponential distance function. *)
Definition same_entry (pow pow' : double -> double -> double)
    (cfg cfg' : CombinedWaveformConfig) : Prop :=
  threshold cfg = threshold cfg' /\ topbit cfg = topbit cfg' /\
  pulsestrength cfg = pulsestrength cfg' /\
  distance1 cfg = distance1 cfg' /\ distance2 cfg = distance2 cfg' /\
  ((distFunc cfg = exponentialDistance pow /\ distFunc cfg' = exponentialDistance pow') \/
   distFunc cfg = distFunc cfg').

(** ** A concrete environment, for examples *)

Definition junk_float0 : nat -> float := fun _ => S754_nan.
Definition junk_short0 : nat -> nat -> Z := fun _ _ => 0.

(** A state whose cache holds one node, for the average 6581 row. *)
Definition state_one_node : state :=
  {| PULLDOWN_CACHE := {[ (ConfigAverage, 0%nat) := 7%nat ]};
     heap := {[ 7%nat := [] ]};
     pulldown_builds := 1 |}.

(** A parameter entry with the linear distance function. *)
Definition linear_config : CombinedWaveformConfig :=
  {| distFunc := linearDistance; threshold := 0.5; topbit := 1.0;
     pulsestrength := 1.0; distance1 := 0.25; distance2 := 0.5 |}.

(** A distance table of ones. *)
Definition flat_distancetable : list float := replicate 25 1%flt.

(** ** Magnitudes *)

(** [x] is a zero or a finite number below [2 ^ p] in absolute value. *)
Definition mag_le (p : Z) (x : float) : Prop :=
  match x with
  | S754_zero _ => True
  | S754_finite _ m e => Zpos (digits2_pos m) + e <= p
  | _ => False
  end.

(** * Notions used in the further properties *)

(** ** Basic waveform table *)

(** The triangle is twice the distance of the phase from the nearer end
    of the range. *)
Definition tri_check (phase : Z) : bool :=
  wf_cell 1 phase =? 2 * Z.min phase (4095 - phase).


(** ** Sequences of calls of [buildPulldownTable] *)

(** The state after the calls [calls], made in this order from [st]. *)
Definition run (pow : double -> double -> double) (junk_float : nat -> float)
    (junk_short : nat -> nat -> Z) (calls : list (ChipModel * CombinedWaveforms))
    (st : state) : state :=
  fold_left (fun st c => (buildPulldownTable pow junk_float junk_short c.1 c.2 st).2)
    calls st.

(** The cache holds keys of the six parameter rows only, each leading to
    a node of the heap, no two to the same one; every table computed is
    in the cache. *)
Definition cache_inv (st : state) : Prop :=
  (forall key node, PULLDOWN_CACHE st !! key = Some node ->
     In key all_rows /\ is_Some (heap st !! node)) /\
  (forall key1 key2 node,
     PULLDOWN_CACHE st !! key1 = Some node -> PULLDOWN_CACHE st !! key2 = Some node ->
     key1 = key2) /\
  pulldown_builds st = size (PULLDOWN_CACHE st).

(** ** Telling the tables apart *)

(** The pulse-sawtooth entry (index 2) of a parameter row, whose distance
    function is [linearDistance] or [quadraticDistance] in every row. *)
Definition PS_entry (pow : double -> double -> double) (key : cfg_ptr)
    : CombinedWaveformConfig :=
  config_row pow key !!! 2%nat.

(** The pulse-sawtooth cell of the table of a parameter row at [idx]. *)
Definition PS_cell (pow : double -> double -> double) (key : cfg_ptr) (idx : nat) : Z :=
  let cfg := PS_entry pow key in
  CInt.to_short
    (calculatePulldown junk_float0 (build_distancetable junk_float0 cfg)
       (topbit cfg) (pulsestrength cfg) (threshold cfg) (Z.of_nat idx)).



(** * Proofs *)

(** ** Loops *)

Lemma for_loop_succ {S : Type} (lo n : nat) (body : nat -> S -> S) (s : S) :
  for_loop lo (Datatypes.S n) body s = body (lo + n)%nat (for_loop lo n body s).
Proof.
  unfold for_loop. rewrite seq_S, fold_left_app. reflexivity.
Qed.

(** Loop invariants: [P k] holds of the state before turn [lo + k]. *)
Lemma for_loop_invariant {S : Type} (P : nat -> S -> Prop) (lo n : nat)
    (body : nat -> S -> S) (s : S) :
  P 0%nat s ->
  (forall k st, (k < n)%nat -> P k st -> P (Datatypes.S k) (body (lo + k)%nat st)) ->
  P n (for_loop lo n body s).
Proof.
  intros Hinit Hstep. induction n as [|n IH].
  - exact Hinit.
  - rewrite for_loop_succ. apply Hstep; [lia|].
    apply IH. intros k st Hk. apply Hstep. lia.
Qed.

(** Checking a decidable property on every index below a bound. *)
Lemma forallb_seq (p : nat -> bool) (n : nat) :
  forallb p (seq 0 n) = true -> forall i, (i < n)%nat -> p i = true.
Proof.
  intros H i Hi. rewrite forallb_forall in H. apply H. apply in_seq. lia.
Qed.

Lemma in_zseq (z : Z) (n : nat) (x : Z) : z <= x < z + Z.of_nat n -> In x (zseq z n).
Proof.
  revert z. induction n as [|n IH]; intros z Hx; simpl.
  - lia.
  - destruct (Z.eq_dec z x) as [->|Hne]; [left; reflexivity | right; apply IH; lia].
Qed.

(** Checking a decidable property on every integer of a range. *)
Lemma forallb_zseq (p : Z -> bool) (z : Z) (n : nat) :
  forallb p (zseq z n) = true -> forall x, z <= x < z + Z.of_nat n -> p x = true.
Proof.
  intros H x Hx. rewrite forallb_forall in H. apply H. apply in_zseq. exact Hx.
Qed.

(** ** Matrices *)

Lemma matrix_alloc_dims cell rows cols : matrix_dims (matrix_alloc cell rows cols) rows cols.
Proof.
  unfold matrix_dims, matrix_alloc. split.
  - rewrite length_map, length_seq. reflexivity.
  - apply Forall_forall. intros row Hrow. apply list_elem_of_In, in_map_iff in Hrow.
    destruct Hrow as (r & <- & _). rewrite length_map, length_seq. reflexivity.
Qed.

Lemma matrix_set_dims m r c v rows cols :
  matrix_dims m rows cols -> matrix_dims (matrix_set m r c v) rows cols.
Proof.
  intros [Hr Hc]. unfold matrix_set. split.
  - rewrite length_alter. exact Hr.
  - apply Forall_alter; [exact Hc|]. intros row _ Hrow. rewrite length_insert. exact Hrow.
Qed.

Lemma matrix_get_set_eq m r c v rows cols :
  matrix_dims m rows cols -> (r < rows)%nat -> (c < cols)%nat ->
  matrix_get (matrix_set m r c v) r c = Some (CInt.to_short v).
Proof.
  intros [Hr Hc] Hlt Hlt'. unfold matrix_get, matrix_set.
  rewrite list_lookup_alter_eq.
  destruct (lookup_lt_is_Some_2 m r) as [row Hrow]; [lia|].
  rewrite Hrow. simpl.
  apply list_lookup_insert_eq.
  rewrite Forall_forall in Hc. rewrite (Hc row); [lia|].
  apply list_elem_of_lookup. eauto.
Qed.

Lemma matrix_get_set_ne m r c v r' c' :
  (r, c) <> (r', c') ->
  matrix_get (matrix_set m r c v) r' c' = matrix_get m r' c'.
Proof.
  intros Hne. unfold matrix_get, matrix_set.
  destruct (decide (r = r')) as [->|Hr].
  - rewrite list_lookup_alter_eq. destruct (m !! r') as [row|]; simpl; [|reflexivity].
    apply list_lookup_insert_ne. congruence.
  - rewrite list_lookup_alter_ne by exact Hr. reflexivity.
Qed.

(** ** The basic waveform table *)

Lemma WaveformCalculator_body_dims idx m :
  matrix_dims m 4 4096 -> matrix_dims (WaveformCalculator_body idx m) 4 4096.
Proof.
  intros H. unfold WaveformCalculator_body. cbv zeta.
  repeat apply matrix_set_dims. exact H.
Qed.

Lemma WaveformCalculator_body_other idx m row idx' :
  idx <> idx' ->
  matrix_get (WaveformCalculator_body idx m) row idx' = matrix_get m row idx'.
Proof.
  intros Hne. unfold WaveformCalculator_body. cbv zeta.
  rewrite !matrix_get_set_ne by congruence. reflexivity.
Qed.

Lemma WaveformCalculator_body_here idx m row :
  matrix_dims m 4 4096 -> (idx < 4096)%nat -> (row < 4)%nat ->
  matrix_get (WaveformCalculator_body idx m) row idx = Some (wf_cell row (Z.of_nat idx)).
Proof.
  intros Hd Hidx Hrow. unfold WaveformCalculator_body. cbv zeta.
  assert (Hrows : row = 0%nat \/ row = 1%nat \/ row = 2%nat \/ row = 3%nat) by lia.
  destruct Hrows as [-> | [-> | [-> | ->]]].
  - rewrite !matrix_get_set_ne by congruence.
    apply (matrix_get_set_eq _ _ _ _ 4 4096); [exact Hd | lia | exact Hidx].
  - rewrite !matrix_get_set_ne by congruence.
    apply (matrix_get_set_eq _ _ _ _ 4 4096); [ | lia | exact Hidx].
    repeat apply matrix_set_dims. exact Hd.
  - rewrite !matrix_get_set_ne by congruence.
    apply (matrix_get_set_eq _ _ _ _ 4 4096); [ | lia | exact Hidx].
    repeat apply matrix_set_dims. exact Hd.
  - apply (matrix_get_set_eq _ _ _ _ 4 4096); [ | lia | exact Hidx].
    repeat apply matrix_set_dims. exact Hd.
Qed.

(** Every cell of the table once the constructor has run. *)
Lemma wftable_cells (cell : nat -> nat -> Z) (row idx : nat) :
  (row < 4)%nat -> (idx < 4096)%nat ->
  matrix_get (wftable (WaveformCalculator cell)) row idx = Some (wf_cell row (Z.of_nat idx)).
Proof.
  intros Hrow Hidx. simpl.
  enough (H : matrix_dims (for_loop 0 4096 WaveformCalculator_body (matrix_alloc cell 4 4096)) 4 4096 /\
              forall i, (i < 4096)%nat ->
                matrix_get (for_loop 0 4096 WaveformCalculator_body (matrix_alloc cell 4 4096)) row i
                = Some (wf_cell row (Z.of_nat i))).
  { apply H. exact Hidx. }
  apply (for_loop_invariant
           (fun k m => matrix_dims m 4 4096 /\
                       forall i, (i < k)%nat -> matrix_get m row i = Some (wf_cell row (Z.of_nat i)))).
  - split; [apply matrix_alloc_dims | intros; lia].
  - intros k m Hk [Hd Hcells]. split.
    + apply WaveformCalculator_body_dims. exact Hd.
    + intros i Hi. simpl. destruct (decide (i = k)) as [->|Hne].
      * apply WaveformCalculator_body_here; [exact Hd | exact Hk | exact Hrow].
      * rewrite WaveformCalculator_body_other by congruence. apply Hcells. lia.
Qed.

Lemma wf_cell_checked (phase : Z) : 0 <= phase < 4096 -> wf_cell_check phase = true.
Proof. apply (forallb_zseq wf_cell_check 0 4096). vm_compute. reflexivity. Qed.

(** ** The pulldown calculator *)

Lemma for_loop_ext {S : Type} (lo n : nat) (f g : nat -> S -> S) (s : S) :
  (forall i st, (lo <= i < lo + n)%nat -> f i st = g i st) ->
  for_loop lo n f s = for_loop lo n g s.
Proof.
  intros H. induction n as [|n IH].
  - reflexivity.
  - rewrite !for_loop_succ. rewrite IH by (intros; apply H; lia).
    apply H. lia.
Qed.

(** A loop that stores [f i] at index [i] of an array of [n] cells. *)
Lemma for_loop_store {A : Type} (f : nat -> A) (n : nat) (a : list A) (i : nat) :
  length a = n -> (i < n)%nat ->
  for_loop 0 n (fun i a => <[i := f i]> a) a !! i = Some (f i).
Proof.
  intros Hlen Hi.
  enough (H : length (for_loop 0 n (fun i a => <[i := f i]> a) a) = n /\
              forall j, (j < n)%nat ->
                for_loop 0 n (fun i a => <[i := f i]> a) a !! j = Some (f j)).
  { apply H. exact Hi. }
  apply (for_loop_invariant
           (fun k r => length r = n /\ forall j, (j < k)%nat -> r !! j = Some (f j))).
  - split; [exact Hlen | intros; lia].
  - intros k st Hk [Hl Hst]. simpl. split.
    + rewrite length_insert. exact Hl.
    + intros j Hj. destruct (decide (j = k)) as [->|Hne].
      * apply list_lookup_insert_eq. lia.
      * rewrite list_lookup_insert_ne by congruence. apply Hst. lia.
Qed.

Lemma for_loop_store_length {A : Type} (f : nat -> A) (n : nat) (a : list A) :
  length (for_loop 0 n (fun i a => <[i := f i]> a) a) = length a.
Proof.
  apply (for_loop_invariant (fun _ r => length r = length a)).
  - reflexivity.
  - intros k st _ H. rewrite length_insert. exact H.
Qed.

Lemma float_array_length junk n : length (float_array junk n) = n.
Proof. unfold float_array. rewrite length_map, length_seq. reflexivity. Qed.

Lemma land_pow2 (a : Z) (i : Z) :
  0 <= i -> Z.land a (2 ^ i) = if Z.testbit a i then 2 ^ i else 0.
Proof.
  intros Hi. apply Z.bits_inj'. intros n Hn. rewrite Z.land_spec, Z.pow2_bits_eqb by lia.
  destruct (Z.eqb_spec i n) as [<-|Hne].
  - destruct (Z.testbit a i).
    + rewrite Z.pow2_bits_true by lia. reflexivity.
    + rewrite Z.bits_0. reflexivity.
  - rewrite andb_false_r. destruct (Z.testbit a i).
    + rewrite Z.pow2_bits_false by lia. reflexivity.
    + rewrite Z.bits_0. reflexivity.
Qed.

Lemma shl_uint_1 (i : nat) : (i < 32)%nat -> CInt.shl_uint 1 (Z.of_nat i) = 2 ^ Z.of_nat i.
Proof.
  intros Hi. unfold CInt.shl_uint, CInt.to_uint. rewrite Z.shiftl_1_l.
  apply Z.mod_small. change 4294967296 with (2 ^ 32).
  split; [apply Z.pow_nonneg; lia | apply Z.pow_lt_mono_r; lia].
Qed.

(** [(accumulator & (1u << i)) != 0] tests bit [i]. *)
Lemma land_shl_testbit (a : Z) (i : nat) :
  (i < 32)%nat ->
  negb (Z.land a (CInt.shl_uint 1 (Z.of_nat i)) =? 0) = Z.testbit a (Z.of_nat i).
Proof.
  intros Hi. rewrite shl_uint_1, land_pow2 by lia.
  destruct (Z.testbit a (Z.of_nat i)).
  - assert (0 < 2 ^ Z.of_nat i) by (apply Z.pow_pos_nonneg; lia).
    destruct (Z.eqb_spec (2 ^ Z.of_nat i) 0); [lia | reflexivity].
  - reflexivity.
Qed.

Lemma pulldown_bits_lookup junk topbit acc (i : nat) :
  (i < 12)%nat -> pulldown_bits junk topbit acc !!! i = spec_bit topbit acc i.
Proof.
  intros Hi. unfold pulldown_bits, spec_bit, bit_of. cbv zeta.
  set (f := fun i : nat =>
              if negb (Z.land acc (CInt.shl_uint 1 (Z.of_nat i)) =? 0) then 1%flt else 0%flt).
  assert (Hf : forall j, (j < 12)%nat ->
            for_loop 0 12 (fun i bit => <[i := f i]> bit) (float_array junk 12) !!! j
            = if Z.testbit acc (Z.of_nat j) then 1%flt else 0%flt).
  { intros j Hj. apply list_lookup_total_correct.
    rewrite for_loop_store by (try apply float_array_length; lia).
    unfold f. rewrite land_shl_testbit by lia. reflexivity. }
  destruct (Nat.eqb_spec i 11) as [->|Hne].
  - apply list_lookup_total_correct. rewrite list_lookup_insert_eq.
    + rewrite Hf by lia. reflexivity.
    + rewrite for_loop_store_length, float_array_length. lia.
  - rewrite list_lookup_total_insert_ne by congruence. apply Hf. exact Hi.
Qed.

(** A loop that skips the turns failing a test runs over the filtered range. *)
Lemma fold_left_skip {S A : Type} (p : A -> bool) (g : S -> A -> S) (l : list A) (s : S) :
  fold_left (fun st i => if p i then g st i else st) l s
  = fold_left g (List.filter p l) s.
Proof.
  revert s. induction l as [|x l IH]; intros s; simpl.
  - reflexivity.
  - destruct (p x); simpl; apply IH.
Qed.

(** Both sums of the loop over [cb], taken apart. *)
Lemma fold_left_pair {A : Type} (fa fn : A -> float) (l : list A) (avg n : float) :
  fold_left (fun st cb => (Float.add st.1 (fa cb), Float.add st.2 (fn cb))) l (avg, n)
  = (fold_left Float.add (map fa l) avg, fold_left Float.add (map fn l) n).
Proof.
  revert avg n. induction l as [|x l IH]; intros avg n; simpl.
  - reflexivity.
  - apply IH.
Qed.

Lemma pulldown_sums_spec (dt bit : list float) (sb : nat) :
  pulldown_sums dt bit sb
  = (fsum (map (fun cb => Float.mul (Float.sub 1%flt (bit !!! cb)) (spec_weight dt sb cb))
             (others sb)),
     spec_n dt sb).
Proof.
  unfold pulldown_sums, for_loop, spec_n, fsum, others.
  rewrite <- (fold_left_pair
                (fun cb => Float.mul (Float.sub 1%flt (bit !!! cb)) (spec_weight dt sb cb))
                (spec_weight dt sb)).
  rewrite <- (fold_left_skip (fun cb => negb (cb =? sb)%nat)).
  generalize (0%flt, 0%flt) as st. generalize (seq 0 12) as l.
  induction l as [|cb l IH]; intros st; simpl.
  - reflexivity.
  - rewrite <- IH. f_equal. unfold pulldown_cb.
    destruct (cb =? sb)%nat; reflexivity.
Qed.

Lemma others_spec (sb cb : nat) : In cb (others sb) <-> (cb < 12)%nat /\ cb <> sb.
Proof.
  unfold others. rewrite filter_In, in_seq, negb_true_iff, Nat.eqb_neq. lia.
Qed.

(** The array [pulldown] holds [spec_pulldown]. *)
Lemma pulldown_sb_store dt bit ps sb pd :
  pulldown_sb dt bit ps sb pd
  = <[sb := Float.div (Float.sub (pulldown_sums dt bit sb).1 ps) (pulldown_sums dt bit sb).2]> pd.
Proof. unfold pulldown_sb. destruct (pulldown_sums dt bit sb). reflexivity. Qed.

Lemma pulldown_array_lookup junk dt topbit ps acc (sb : nat) :
  (sb < 12)%nat ->
  for_loop 0 12 (pulldown_sb dt (pulldown_bits junk topbit acc) ps) (float_array junk 12) !!! sb
  = spec_pulldown dt topbit ps acc sb.
Proof.
  intros Hsb. apply list_lookup_total_correct.
  rewrite (for_loop_ext _ _ _ _ _
             (fun i st _ => pulldown_sb_store dt (pulldown_bits junk topbit acc) ps i st)).
  rewrite for_loop_store by (try apply float_array_length; lia).
  f_equal. rewrite pulldown_sums_spec. simpl. unfold spec_pulldown.
  f_equal. f_equal. f_equal. apply map_ext_in. intros cb Hcb.
  apply others_spec in Hcb. rewrite pulldown_bits_lookup by lia. reflexivity.
Qed.

(** The last loop sets bit [i] of [value] exactly when its test passes. *)
Lemma to_short_small (z : Z) : 0 <= z < 2 ^ 15 -> CInt.to_short z = z.
Proof.
  intros H. unfold CInt.to_short. cbv zeta.
  rewrite Z.mod_small by lia.
  destruct (Z.ltb_spec z 32768) as [_|Hge]; [reflexivity | lia].
Qed.

Lemma pulldown_value_step bit pd th (k : nat) (v : Z) :
  (k < 12)%nat ->
  0 <= v < 2 ^ Z.of_nat k ->
  (forall j : nat, Z.testbit v (Z.of_nat j) = (j <? k)%nat && out_bit bit pd th j) ->
  let v' := pulldown_value bit pd th k v in
  0 <= v' < 2 ^ Z.of_nat (S k) /\
  (forall j : nat, Z.testbit v' (Z.of_nat j) = (j <? S k)%nat && out_bit bit pd th j).
Proof.
  intros Hk Hv Hbits. cbv zeta. unfold pulldown_value. fold (out_bit bit pd th k).
  assert (Hpow : 0 < 2 ^ Z.of_nat k) by (apply Z.pow_pos_nonneg; lia).
  assert (Hpow12 : 2 ^ Z.of_nat (S k) <= 2 ^ 12) by (apply Z.pow_le_mono_r; lia).
  assert (HpowS : 2 ^ Z.of_nat (S k) = 2 * 2 ^ Z.of_nat k).
  { rewrite Nat2Z.inj_succ, Z.pow_succ_r by lia. reflexivity. }
  assert (Hvk : Z.testbit v (Z.of_nat k) = false).
  { rewrite Hbits, Nat.ltb_irrefl. reflexivity. }
  destruct (out_bit bit pd th k) eqn:Hout.
  - assert (Hu : CInt.to_uint v = v).
    { unfold CInt.to_uint. apply Z.mod_small. lia. }
    assert (Hlor : Z.lor v (2 ^ Z.of_nat k) = v + 2 ^ Z.of_nat k).
    { rewrite <- Z.lxor_lor, <- Z.add_nocarry_lxor; try reflexivity;
        rewrite land_pow2, Hvk by lia; reflexivity. }
    rewrite Hu, shl_uint_1 by lia.
    rewrite to_short_small by (rewrite Hlor; lia).
    split; [rewrite Hlor; lia|].
    intros j. rewrite Z.lor_spec, Hbits, Z.pow2_bits_eqb by lia.
    destruct (Nat.ltb_spec j k) as [Hlt|Hge].
    + destruct (Nat.ltb_spec j (S k)); [|lia].
      destruct (Z.eqb_spec (Z.of_nat k) (Z.of_nat j)); [lia|].
      rewrite orb_false_r. reflexivity.
    + destruct (Z.eqb_spec (Z.of_nat k) (Z.of_nat j)) as [Heq|Hne].
      * apply Nat2Z.inj in Heq. subst j.
        destruct (Nat.ltb_spec k (S k)); [|lia]. rewrite Hout. reflexivity.
      * destruct (Nat.ltb_spec j (S k)); [lia|]. reflexivity.
  - split; [lia|].
    intros j. rewrite Hbits.
    destruct (Nat.ltb_spec j k) as [Hlt|Hge].
    + destruct (Nat.ltb_spec j (S k)); [reflexivity | lia].
    + destruct (Nat.ltb_spec j (S k)) as [Hlt'|_]; [|reflexivity].
      assert (j = k) by lia. subst j. rewrite Hout. reflexivity.
Qed.

Lemma pulldown_value_loop bit pd th :
  let v := for_loop 0 12 (pulldown_value bit pd th) 0 in
  0 <= v < 4096 /\
  (forall j : nat, Z.testbit v (Z.of_nat j) = (j <? 12)%nat && out_bit bit pd th j).
Proof.
  cbv zeta. change 4096 with (2 ^ Z.of_nat 12).
  apply (for_loop_invariant
           (fun k v => 0 <= v < 2 ^ Z.of_nat k /\
                       forall j : nat,
                         Z.testbit v (Z.of_nat j) = (j <? k)%nat && out_bit bit pd th j)).
  - split; [simpl; lia|]. intros j. rewrite Z.bits_0. reflexivity.
  - intros k v Hk [Hv Hbits]. apply pulldown_value_step; assumption.
Qed.

(** The returned value, bit by bit. *)
Lemma calculatePulldown_testbit junk dt topbit ps th acc (sb : nat) :
  (sb < 12)%nat ->
  Z.testbit (calculatePulldown junk dt topbit ps th acc) (Z.of_nat sb)
  = Float.gt
      (if Float.gt (spec_bit topbit acc sb) 0%flt
       then Float.sub 1%flt (spec_pulldown dt topbit ps acc sb) else 0%flt)
      th.
Proof.
  intros Hsb. unfold calculatePulldown. cbv zeta.
  destruct (pulldown_value_loop (pulldown_bits junk topbit acc)
              (for_loop 0 12 (pulldown_sb dt (pulldown_bits junk topbit acc) ps)
                 (float_array junk 12)) th) as [_ Hbits].
  rewrite Hbits. destruct (Nat.ltb_spec sb 12); [|lia]. simpl.
  unfold out_bit. rewrite pulldown_bits_lookup, pulldown_array_lookup by lia.
  reflexivity.
Qed.

Lemma calculatePulldown_range junk dt topbit ps th acc :
  0 <= calculatePulldown junk dt topbit ps th acc <= 4095.
Proof.
  unfold calculatePulldown. cbv zeta.
  destruct (pulldown_value_loop (pulldown_bits junk topbit acc)
              (for_loop 0 12 (pulldown_sb dt (pulldown_bits junk topbit acc) ps)
                 (float_array junk 12)) th) as [Hr _].
  lia.
Qed.

(** Only the low 12 bits of the accumulator are read. *)
Lemma pulldown_bits_low junk topbit acc :
  pulldown_bits junk topbit (acc mod 4096) = pulldown_bits junk topbit acc.
Proof.
  unfold pulldown_bits. cbv zeta.
  assert (Hloop : forall a0 : list float,
            for_loop 0 12
              (fun i bit =>
                 <[i := if negb (Z.land (acc mod 4096) (CInt.shl_uint 1 (Z.of_nat i)) =? 0)
                        then 1%flt else 0%flt]> bit) a0
            = for_loop 0 12
                (fun i bit =>
                   <[i := if negb (Z.land acc (CInt.shl_uint 1 (Z.of_nat i)) =? 0)
                          then 1%flt else 0%flt]> bit) a0).
  { intros a0. apply for_loop_ext. intros i st Hi.
    rewrite !land_shl_testbit by lia.
    change 4096 with (2 ^ 12). rewrite Z.mod_pow2_bits_low by lia. reflexivity. }
  rewrite Hloop. reflexivity.
Qed.

Lemma calculatePulldown_low junk dt topbit ps th acc :
  calculatePulldown junk dt topbit ps th (acc mod 4096)
  = calculatePulldown junk dt topbit ps th acc.
Proof. unfold calculatePulldown. rewrite pulldown_bits_low. reflexivity. Qed.

(** ** The distance table *)

(** The table after the loop of [buildPulldownTable], entry by entry. *)
Lemma build_distancetable_entries junk (cfg : CombinedWaveformConfig) :
  build_distancetable junk cfg
  = map (fun k : nat =>
           if (k <? 12)%nat then distFunc cfg (distance1 cfg) (Z.of_nat (12 - k))
           else if (k =? 12)%nat then 1%flt
           else distFunc cfg (distance2 cfg) (Z.of_nat (k - 12)))
      (seq 0 25).
Proof. reflexivity. Qed.

(** ** The pulldown table *)

(** A loop that fills row [r] of a matrix leaves the other rows alone. *)
Lemma matrix_row_fill (f : nat -> Z) (r rows cols : nat) (m : matrix_t) :
  matrix_dims m rows cols -> (r < rows)%nat ->
  let m' := for_loop 0 cols (fun idx m => matrix_set m r idx (f idx)) m in
  matrix_dims m' rows cols /\
  (forall idx, (idx < cols)%nat -> matrix_get m' r idx = Some (CInt.to_short (f idx))) /\
  (forall r' idx, r' <> r -> matrix_get m' r' idx = matrix_get m r' idx).
Proof.
  intros Hd Hr. cbv zeta.
  apply (for_loop_invariant
           (fun k m' =>
              matrix_dims m' rows cols /\
              (forall idx, (idx < k)%nat -> matrix_get m' r idx = Some (CInt.to_short (f idx))) /\
              (forall r' idx, r' <> r -> matrix_get m' r' idx = matrix_get m r' idx))).
  - split; [exact Hd|]. split; [intros; lia | reflexivity].
  - intros k st Hk (Hd' & Hrow & Hother). simpl. split; [|split].
    + apply matrix_set_dims. exact Hd'.
    + intros idx Hidx. destruct (decide (idx = k)) as [->|Hne].
      * apply (matrix_get_set_eq _ _ _ _ rows cols); assumption.
      * rewrite matrix_get_set_ne by congruence. apply Hrow. lia.
    + intros r' idx Hr'. rewrite matrix_get_set_ne by congruence. apply Hother. exact Hr'.
Qed.

(** Every cell of the table built on a cache miss. *)
Lemma build_pdTable_cells junk_f junk_s (cfgArray : list CombinedWaveformConfig)
    (wav idx : nat) :
  (wav < 5)%nat -> (idx < 4096)%nat ->
  matrix_get (build_pdTable junk_f junk_s cfgArray) wav idx
  = Some (CInt.to_short
            (calculatePulldown junk_f (build_distancetable junk_f (cfgArray !!! wav))
               (topbit (cfgArray !!! wav)) (pulsestrength (cfgArray !!! wav))
               (threshold (cfgArray !!! wav)) (Z.of_nat idx))).
Proof.
  intros Hwav Hidx. unfold build_pdTable.
  set (cell := fun w i =>
         CInt.to_short
           (calculatePulldown junk_f (build_distancetable junk_f (cfgArray !!! w))
              (topbit (cfgArray !!! w)) (pulsestrength (cfgArray !!! w))
              (threshold (cfgArray !!! w)) (Z.of_nat i))).
  enough (H : matrix_dims (for_loop 0 5 (pdTable_wav junk_f cfgArray)
                             (matrix_alloc junk_s 5 4096)) 5 4096 /\
              forall w i, (w < 5)%nat -> (i < 4096)%nat ->
                matrix_get (for_loop 0 5 (pdTable_wav junk_f cfgArray)
                              (matrix_alloc junk_s 5 4096)) w i = Some (cell w i)).
  { apply H; assumption. }
  apply (for_loop_invariant
           (fun k m => matrix_dims m 5 4096 /\
                       forall w i, (w < k)%nat -> (i < 4096)%nat ->
                         matrix_get m w i = Some (cell w i))).
  - split; [apply matrix_alloc_dims | intros; lia].
  - intros k m Hk [Hd Hcells]. simpl. unfold pdTable_wav. cbv zeta.
    pose proof (matrix_row_fill
                  (fun i => calculatePulldown junk_f (build_distancetable junk_f (cfgArray !!! k))
                              (topbit (cfgArray !!! k)) (pulsestrength (cfgArray !!! k))
                              (threshold (cfgArray !!! k)) (Z.of_nat i))
                  k 5 4096 m Hd Hk) as Hfill.
    cbv zeta in Hfill. destruct Hfill as (Hd' & Hrow & Hother).
    split; [exact Hd'|].
    intros w i Hw Hi. destruct (decide (w = k)) as [->|Hne].
    + apply Hrow. exact Hi.
    + rewrite Hother by exact Hne. apply Hcells; [lia | exact Hi].
Qed.

(** ** The table cache *)

Section Cache.

Variable pow : double -> double -> double.
Variable junk_float : nat -> float.
Variable junk_short : nat -> nat -> Z.

#[local] Abbreviation build := (buildPulldownTable pow junk_float junk_short).

(** A cache hit returns the cached node and changes nothing. *)
Lemma buildPulldownTable_hit model cws st node :
  PULLDOWN_CACHE st !! select_cfgArray model cws = Some node ->
  build model cws st = (node, st).
Proof. intros H. unfold buildPulldownTable. cbv zeta. rewrite H. reflexivity. Qed.

(** After any call the key is cached under the returned node. *)
Lemma buildPulldownTable_cached model cws st :
  PULLDOWN_CACHE (build model cws st).2 !! select_cfgArray model cws
  = Some (build model cws st).1.
Proof.
  unfold buildPulldownTable. cbv zeta.
  destruct (PULLDOWN_CACHE st !! select_cfgArray model cws) as [node|] eqn:H; simpl.
  - exact H.
  - apply lookup_insert_eq.
Qed.

(** A cache miss computes the table once and stores it in a new node. *)
Lemma buildPulldownTable_miss model cws st :
  PULLDOWN_CACHE st !! select_cfgArray model cws = None ->
  let r := build model cws st in
  heap st !! r.1 = None /\
  deref r.2 r.1
  = Some (build_pdTable junk_float junk_short (config_row pow (select_cfgArray model cws))) /\
  pulldown_builds r.2 = S (pulldown_builds st) /\
  (forall p, p <> r.1 -> deref r.2 p = deref st p).
Proof.
  intros H. cbv zeta. unfold buildPulldownTable. cbv zeta. rewrite H. simpl.
  unfold deref. simpl. split; [|split; [|split]].
  - apply not_elem_of_dom. apply is_fresh.
  - apply lookup_insert_eq.
  - reflexivity.
  - intros p Hp. apply lookup_insert_ne. congruence.
Qed.

Lemma cache_ok_initial : cache_ok pow junk_float junk_short initial_state.
Proof. intros key node H. simpl in H. rewrite lookup_empty in H. discriminate. Qed.

Lemma cache_ok_build model cws st :
  cache_ok pow junk_float junk_short st ->
  cache_ok pow junk_float junk_short (build model cws st).2.
Proof.
  intros Hok. unfold buildPulldownTable. cbv zeta.
  destruct (PULLDOWN_CACHE st !! select_cfgArray model cws) as [node|] eqn:H; simpl.
  - exact Hok.
  - intros key node' Hkey. simpl in *.
    destruct (decide (key = select_cfgArray model cws)) as [->|Hne].
    + rewrite lookup_insert_eq in Hkey. injection Hkey as <-. apply lookup_insert_eq.
    + rewrite lookup_insert_ne in Hkey by congruence.
      pose proof (Hok key node' Hkey) as Hheap.
      rewrite lookup_insert_ne; [exact Hheap|].
      intros Heq. subst node'.
      pose proof (is_fresh (dom (heap st))) as Hfresh.
      apply Hfresh. apply elem_of_dom. eauto.
Qed.

(** In a consistent state the returned pointer leads to the table of the
    selected parameter row. *)
Lemma buildPulldownTable_deref model cws st :
  cache_ok pow junk_float junk_short st ->
  deref (build model cws st).2 (build model cws st).1
  = Some (build_pdTable junk_float junk_short (config_row pow (select_cfgArray model cws))).
Proof.
  intros Hok. apply (cache_ok_build model cws st Hok).
  apply buildPulldownTable_cached.
Qed.

End Cache.

(** ** The C library's [pow] *)

Lemma float_eqb_eq (x y : spec_float) : float_eqb x y = true -> x = y.
Proof.
  destruct x as [a|a| |a m e], y as [b|b| |b n f]; simpl; try discriminate.
  - intros H. apply Bool.eqb_prop in H. congruence.
  - intros H. apply Bool.eqb_prop in H. congruence.
  - reflexivity.
  - rewrite !andb_true_iff. intros [[Hs Hm] He].
    apply Bool.eqb_prop in Hs. apply Pos.eqb_eq in Hm. apply Z.eqb_eq in He. congruence.
Qed.

Lemma to_int_small (z : Z) : - 2147483648 <= z < 2147483648 -> CInt.to_int z = z.
Proof.
  intros H. unfold CInt.to_int. cbv zeta.
  destruct (Z.ltb_spec (z mod 4294967296) 2147483648) as [Hlt|Hge].
  - apply Z.mod_small. destruct (Z.lt_ge_cases z 0) as [Hneg|Hpos]; [|lia].
    rewrite <- (Z.mod_add z 1 4294967296) in Hlt by lia.
    rewrite Z.mod_small in Hlt by lia. lia.
  - destruct (Z.lt_ge_cases z 0) as [Hneg|Hpos].
    + rewrite <- (Z.mod_add z 1 4294967296) by lia.
      rewrite Z.mod_small by lia. lia.
    + rewrite Z.mod_small in Hge by lia. lia.
Qed.

Lemma small_exponent_cases (i : Z) :
  1 <= i <= 12 ->
  i = 1 \/ i = 2 \/ i = 3 \/ i = 4 \/ i = 5 \/ i = 6 \/
  i = 7 \/ i = 8 \/ i = 9 \/ i = 10 \/ i = 11 \/ i = 12.
Proof. lia. Qed.

Lemma int_of_double_of_int (i : Z) :
  1 <= i <= 12 -> Libm.int_of_double (Double.of_int (- i)) = Some (- i).
Proof.
  intros H. apply small_exponent_cases in H.
  repeat (destruct H as [-> | H]; [vm_compute; reflexivity|]).
  subst i. vm_compute. reflexivity.
Qed.

Lemma pow_nearest_neg_int (x : double) (i : Z) :
  1 <= i <= 12 -> Libm.pow_nearest x (Double.of_int (- i)) = Libm.nearest x i.
Proof.
  intros H. unfold Libm.pow_nearest. rewrite int_of_double_of_int by exact H.
  destruct (Z.ltb_spec (- i) 0); [|lia]. rewrite Z.opp_involutive. reflexivity.
Qed.

Lemma nearest_in_neighbours (x : double) (i : Z) :
  In (Libm.nearest x i) (Libm.neighbours x i).
Proof.
  unfold Libm.neighbours, Libm.neighbours_of.
  destruct x as [s|s| |[|] m e]; simpl; auto.
  destruct (Libm.compare_exact _ m e i); simpl; auto.
Qed.

(** The nearest-rounding [pow] is one of the faithful ones. *)
Lemma pow_nearest_faithful : Libm.faithful Libm.pow_nearest.
Proof.
  intros x i _ Hi. rewrite pow_nearest_neg_int by exact Hi.
  apply nearest_in_neighbours.
Qed.

Lemma exponentialDistance_nearest (d : float) (i : Z) :
  1 <= i <= 12 ->
  exponentialDistance Libm.pow_nearest d i
  = Double.to_float (Libm.nearest (Double.of_float d) i).
Proof.
  intros Hi. unfold exponentialDistance.
  rewrite to_int_small by lia. rewrite pow_nearest_neg_int by exact Hi. reflexivity.
Qed.

(** With a faithful [pow] the exponential distance is determined wherever
    [narrow_agree] holds. *)
Lemma exponentialDistance_determined pow (d : float) (i : Z) :
  Libm.faithful pow -> 1 <= i <= 12 -> narrow_agree d i = true ->
  exponentialDistance pow d i = exponentialDistance Libm.pow_nearest d i.
Proof.
  intros Hpow Hi Hagree. rewrite exponentialDistance_nearest by exact Hi.
  unfold narrow_agree in Hagree. cbv zeta in Hagree.
  apply andb_true_iff in Hagree. destruct Hagree as [Hpos Hall].
  rewrite forallb_forall in Hall.
  unfold exponentialDistance. rewrite to_int_small by lia.
  apply float_eqb_eq. apply Hall. apply (Hpow d i Hpos Hi).
Qed.

(** ** Magnitude of the results of [float] operations *)

Lemma digits2_pos_bounds (m : positive) :
  2 ^ (Zpos (digits2_pos m) - 1) <= Zpos m < 2 ^ Zpos (digits2_pos m).
Proof.
  induction m as [m IH|m IH|]; simpl digits2_pos.
  - rewrite Pos2Z.inj_succ. change (Zpos m~1) with (2 * Zpos m + 1).
    replace (Z.succ (Zpos (digits2_pos m)) - 1) with (Z.succ (Zpos (digits2_pos m) - 1)) by lia.
    rewrite !Z.pow_succ_r by lia.
    destruct IH as [IH1 IH2]. revert IH1 IH2.
    generalize (2 ^ (Zpos (digits2_pos m) - 1)) (2 ^ Zpos (digits2_pos m)). lia.
  - rewrite Pos2Z.inj_succ. change (Zpos m~0) with (2 * Zpos m).
    replace (Z.succ (Zpos (digits2_pos m)) - 1) with (Z.succ (Zpos (digits2_pos m) - 1)) by lia.
    rewrite !Z.pow_succ_r by lia.
    destruct IH as [IH1 IH2]. revert IH1 IH2.
    generalize (2 ^ (Zpos (digits2_pos m) - 1)) (2 ^ Zpos (digits2_pos m)). lia.
  - simpl. lia.
Qed.

Lemma Zdigits2_nonneg (m : Z) : 0 <= Zdigits2 m.
Proof. destruct m; simpl; lia. Qed.

Lemma Zdigits2_upper (m k : Z) : 0 <= m < 2 ^ k -> 0 <= k -> Zdigits2 m <= k.
Proof.
  intros [Hm Hlt] Hk. destruct m as [|p|p]; simpl; [lia| |lia].
  pose proof (digits2_pos_bounds p) as [Hlo _].
  destruct (Z.le_gt_cases (Zpos (digits2_pos p)) k) as [|Hgt]; [assumption|].
  assert (2 ^ k <= 2 ^ (Zpos (digits2_pos p) - 1)) by (apply Z.pow_le_mono_r; lia).
  lia.
Qed.

Lemma Zdigits2_lt (m : Z) : 0 <= m -> m < 2 ^ Zdigits2 m.
Proof.
  intros Hm. destruct m as [|p|p]; simpl; [lia| |lia].
  apply digits2_pos_bounds.
Qed.

Lemma shr_1_m (mrs : shr_record) :
  0 <= shr_m mrs -> shr_m (shr_1 mrs) = shr_m mrs / 2.
Proof.
  destruct mrs as [m r s]. simpl. intros Hm.
  destruct m as [|[p|p|]|p]; simpl; try reflexivity; try lia.
  - change (Zpos p~1) with (2 * Zpos p + 1). apply (Z.div_unique _ _ _ 1); lia.
  - change (Zpos p~0) with (2 * Zpos p). apply (Z.div_unique _ _ _ 0); lia.
Qed.

Lemma iter_shr_1_m (p : positive) (mrs : shr_record) :
  0 <= shr_m mrs -> shr_m (SpecFloat.iter_pos shr_1 p mrs) = shr_m mrs / 2 ^ Zpos p.
Proof.
  revert mrs. induction p as [p IH|p IH|]; intros mrs Hm; simpl SpecFloat.iter_pos.
  - assert (H1 : 0 <= shr_m (shr_1 mrs)).
    { rewrite shr_1_m by exact Hm. apply Z.div_pos; lia. }
    assert (H2 : 0 <= shr_m (SpecFloat.iter_pos shr_1 p (shr_1 mrs))).
    { rewrite IH by exact H1. apply Z.div_pos; [lia | apply Z.pow_pos_nonneg; lia]. }
    rewrite IH by exact H2. rewrite IH by exact H1. rewrite shr_1_m by exact Hm.
    assert (Hp : 0 < 2 ^ Zpos p) by (apply Z.pow_pos_nonneg; lia).
    rewrite !Z.div_div by lia.
    change (Zpos p~1) with (2 * Zpos p + 1).
    replace (2 * Zpos p + 1) with (1 + Zpos p + Zpos p) by lia.
    rewrite !Z.pow_add_r by lia. rewrite Z.pow_1_r. f_equal. lia.
  - assert (H2 : 0 <= shr_m (SpecFloat.iter_pos shr_1 p mrs)).
    { rewrite IH by exact Hm. apply Z.div_pos; [lia | apply Z.pow_pos_nonneg; lia]. }
    rewrite IH by exact H2. rewrite IH by exact Hm.
    assert (Hp : 0 < 2 ^ Zpos p) by (apply Z.pow_pos_nonneg; lia).
    rewrite !Z.div_div by lia.
    change (Zpos p~0) with (2 * Zpos p).
    replace (2 * Zpos p) with (Zpos p + Zpos p) by lia.
    rewrite !Z.pow_add_r by lia. reflexivity.
  - rewrite shr_1_m by exact Hm. reflexivity.
Qed.

Lemma shr_record_of_loc_m (m : Z) (l : location) : shr_m (shr_record_of_loc m l) = m.
Proof. destruct l as [|[]]; reflexivity. Qed.

(** [shr_fexp]: the mantissa is divided by a power of two and the
    exponent raised by as much. *)
Lemma shr_fexp_spec (m e : Z) (l : location) :
  0 <= m ->
  let n := Z.max 0 (fexp 24 128 (Zdigits2 m + e) - e) in
  shr_m (fst (shr_fexp 24 128 m e l)) = m / 2 ^ n /\
  snd (shr_fexp 24 128 m e l) = e + n.
Proof.
  intros Hm. cbv zeta. unfold shr_fexp, shr.
  destruct (fexp 24 128 (Zdigits2 m + e) - e) as [|p|p] eqn:Hn; simpl fst; simpl snd.
  - rewrite shr_record_of_loc_m. simpl. rewrite Z.div_1_r. split; [reflexivity | lia].
  - rewrite iter_shr_1_m by (rewrite shr_record_of_loc_m; exact Hm).
    rewrite shr_record_of_loc_m.
    replace (Z.max 0 (Zpos p)) with (Zpos p) by lia. split; reflexivity.
  - rewrite shr_record_of_loc_m.
    replace (Z.max 0 (Zneg p)) with 0 by lia. simpl. rewrite Z.div_1_r. split; [reflexivity | lia].
Qed.

Lemma round_nearest_even_bounds (m : Z) (l : location) :
  m <= round_nearest_even m l <= m + 1.
Proof. unfold round_nearest_even. destruct l as [|[]]; try destruct (Z.even m); lia. Qed.

Lemma pow2_pos (k : Z) : 0 <= k -> 0 < 2 ^ k.
Proof. intros. apply Z.pow_pos_nonneg; lia. Qed.

Lemma div_pow2_lt (a n k : Z) :
  0 <= n -> 0 <= k -> 0 <= a < 2 ^ (k + n) -> 0 <= a / 2 ^ n < 2 ^ k.
Proof.
  intros Hn Hk [Ha Hlt]. pose proof (pow2_pos n Hn). split.
  - apply Z.div_pos; lia.
  - apply Z.div_lt_upper_bound; [lia|]. rewrite <- Z.pow_add_r by lia.
    replace (n + k) with (k + n) by lia. exact Hlt.
Qed.

Lemma div_pow2_zero (a n : Z) : 0 <= a < 2 ^ n -> a / 2 ^ n = 0.
Proof. intros H. apply Z.div_small. exact H. Qed.

(** The result of rounding a number below [2 ^ M] is a zero or a finite
    number below [2 ^ (M + 1)]. *)
Lemma binary_round_aux_mag (sx : bool) (mx ex : Z) (lx : location) (M : Z) :
  0 <= mx -> Zdigits2 mx + ex <= M -> -149 <= M -> M + 1 <= 128 -> ex <= 104 ->
  mag_le (M + 1) (binary_round_aux 24 128 sx mx ex lx).
Proof.
  intros Hmx HM Hlo Hhi Hex. unfold binary_round_aux.
  pose proof (shr_fexp_spec mx ex lx Hmx) as [Hm1 He1]. cbv zeta in Hm1, He1.
  destruct (shr_fexp 24 128 mx ex lx) as [mrs1 e1]. simpl fst in Hm1. simpl snd in He1.
  pose proof (Zdigits2_nonneg mx) as Hd.
  pose proof (Zdigits2_lt mx Hmx) as Hmxlt.
  set (n1 := Z.max 0 (fexp 24 128 (Zdigits2 mx + ex) - ex)) in *.
  assert (Hn1 : 0 <= n1) by (unfold n1; lia).
  assert (Hfexp1 : fexp 24 128 (Zdigits2 mx + ex) = Z.max (Zdigits2 mx + ex - 24) (-149))
    by reflexivity.
  assert (He1M : e1 <= M) by (unfold n1 in *; lia).
  assert (He1hi : e1 <= 104) by (unfold n1 in *; lia).
  assert (Hm1b : 0 <= shr_m mrs1 < 2 ^ (M - e1)).
  { rewrite Hm1. apply div_pow2_lt; [lia | lia |]. split; [lia|].
    apply Z.lt_le_trans with (1 := Hmxlt). apply Z.pow_le_mono_r; lia. }
  pose proof (round_nearest_even_bounds (shr_m mrs1) (loc_of_shr_record mrs1)) as Hr.
  set (r := round_nearest_even (shr_m mrs1) (loc_of_shr_record mrs1)) in *.
  assert (Hr0 : 0 <= r) by lia.
  assert (Hrb : r <= 2 ^ (M - e1)) by lia.
  assert (Hrlt : r < 2 ^ (M - e1 + 1)).
  { rewrite Z.pow_add_r, Z.pow_1_r by lia. pose proof (pow2_pos (M - e1)). lia. }
  assert (Hdr : Zdigits2 r <= M - e1 + 1) by (apply Zdigits2_upper; lia).
  pose proof (Zdigits2_nonneg r) as Hdr0.
  pose proof (shr_fexp_spec r e1 loc_Exact Hr0) as [Hm2 He2]. cbv zeta in Hm2, He2.
  destruct (shr_fexp 24 128 r e1 loc_Exact) as [mrs2 e2]. simpl fst in Hm2. simpl snd in He2.
  set (n2 := Z.max 0 (fexp 24 128 (Zdigits2 r + e1) - e1)) in *.
  assert (Hn2 : 0 <= n2) by (unfold n2; lia).
  assert (Hfexp2 : fexp 24 128 (Zdigits2 r + e1) = Z.max (Zdigits2 r + e1 - 24) (-149))
    by reflexivity.
  assert (He2hi : e2 <= 104) by (unfold n2 in *; lia).
  assert (Hm2b : shr_m mrs2 = 0 \/ (0 < shr_m mrs2 /\ Zdigits2 (shr_m mrs2) + e2 <= M + 1)).
  { destruct (Z.le_gt_cases n2 (M - e1)) as [Hle|Hgt].
    - assert (Hb : 0 <= shr_m mrs2 < 2 ^ (M - e1 - n2 + 1)).
      { rewrite Hm2. apply div_pow2_lt; [lia | lia |]. split; [lia|].
        replace (M - e1 - n2 + 1 + n2) with (M - e1 + 1) by lia. exact Hrlt. }
      destruct (Z.eq_dec (shr_m mrs2) 0) as [Hz|Hnz]; [left; exact Hz | right].
      split; [lia|].
      assert (Zdigits2 (shr_m mrs2) <= M - e1 - n2 + 1) by (apply Zdigits2_upper; lia).
      lia.
    - left. rewrite Hm2. apply div_pow2_zero. split; [lia|].
      apply Z.le_lt_trans with (1 := Hrb). apply Z.pow_lt_mono_r; lia. }
  destruct (shr_m mrs2) as [|m|m] eqn:Hsm.
  - exact I.
  - change (128 - 24) with 104. destruct (Z.leb_spec e2 104) as [_|Hgt]; [|lia].
    simpl. destruct Hm2b as [Hz|[_ Hb]]; [discriminate|]. simpl in Hb. exact Hb.
  - destruct Hm2b as [Hz|[Hpos _]]; [discriminate | lia].
Qed.

Lemma mag_le_mono (p q : Z) (x : float) : p <= q -> mag_le p x -> mag_le q x.
Proof. intros Hpq. destruct x; simpl; try tauto. lia. Qed.

Lemma digits2_pos_iter_xO (m d : positive) :
  Zpos (digits2_pos (Pos.iter xO m d)) = Zpos (digits2_pos m) + Zpos d.
Proof.
  induction d as [|d IH] using Pos.peano_ind.
  - simpl. lia.
  - rewrite Pos.iter_succ. simpl digits2_pos. rewrite Pos2Z.inj_succ, IH. lia.
Qed.

(** [shl_align] keeps the magnitude and lowers the exponent to the
    smaller of the two. *)
Lemma shl_align_spec (mx : positive) (ex ex' : Z) :
  Zpos (digits2_pos (fst (shl_align mx ex ex'))) + snd (shl_align mx ex ex')
  = Zpos (digits2_pos mx) + ex /\
  snd (shl_align mx ex ex') = Z.min ex ex'.
Proof.
  unfold shl_align. destruct (ex' - ex) as [|d|d] eqn:Hd; simpl fst; simpl snd.
  - lia.
  - lia.
  - rewrite digits2_pos_iter_xO. lia.
Qed.

Lemma binary_round_mag (s : bool) (p : positive) (e M : Z) :
  Zpos (digits2_pos p) + e <= M -> -149 <= M -> M + 1 <= 128 ->
  mag_le (M + 1) (binary_round 24 128 s p e).
Proof.
  intros HM Hlo Hhi. unfold binary_round.
  pose proof (shl_align_spec p e (fexp 24 128 (Zpos (digits2_pos p) + e))) as [Hdig Hexp].
  destruct (shl_align p e (fexp 24 128 (Zpos (digits2_pos p) + e))) as [mz ez].
  simpl fst in Hdig. simpl snd in Hdig, Hexp.
  assert (Hfexp : fexp 24 128 (Zpos (digits2_pos p) + e) = Z.max (Zpos (digits2_pos p) + e - 24) (-149))
    by reflexivity.
  apply binary_round_aux_mag; simpl Zdigits2; lia.
Qed.

Lemma binary_normalize_mag (m e M : Z) :
  Z.abs m < 2 ^ (M - e) -> 0 <= M - e -> -149 <= M -> M + 1 <= 128 ->
  mag_le (M + 1) (binary_normalize 24 128 m e false).
Proof.
  intros Hm Hk Hlo Hhi. unfold binary_normalize.
  destruct m as [|p|p].
  - exact I.
  - apply binary_round_mag; [|lia|lia].
    assert (Zdigits2 (Zpos p) <= M - e) by (apply Zdigits2_upper; lia).
    simpl in *. lia.
  - apply binary_round_mag; [|lia|lia].
    assert (Zdigits2 (Zpos p) <= M - e) by (apply Zdigits2_upper; lia).
    simpl in *. lia.
Qed.

(** An operand aligned to the smaller exponent [ez]. *)
Lemma shl_align_lt (mx : positive) (ex ez a : Z) :
  ez <= ex -> Zpos (digits2_pos mx) + ex <= a ->
  Zpos (fst (shl_align mx ex ez)) < 2 ^ (a - ez) /\ 1 <= a - ez.
Proof.
  intros Hez Ha.
  pose proof (shl_align_spec mx ex ez) as [Hdig Hexp].
  pose proof (digits2_pos_bounds (fst (shl_align mx ex ez))) as [_ Hlt].
  assert (Hd : 0 < Zpos (digits2_pos (fst (shl_align mx ex ez)))) by lia.
  split; [|lia].
  apply Z.lt_le_trans with (1 := Hlt). apply Z.pow_le_mono_r; lia.
Qed.

Lemma pow2_sum_le (a b k : Z) :
  0 <= a -> 0 <= b -> 2 ^ a + 2 ^ b <= 2 ^ (Z.max a b + 1).
Proof.
  intros Ha Hb. rewrite Z.pow_add_r, Z.pow_1_r by lia.
  assert (2 ^ a <= 2 ^ Z.max a b) by (apply Z.pow_le_mono_r; lia).
  assert (2 ^ b <= 2 ^ Z.max a b) by (apply Z.pow_le_mono_r; lia).
  lia.
Qed.

(** The sum or the difference of two aligned operands. *)
Lemma aligned_sum_mag (sx sy : bool) (mx my : positive) (ex ey a b : Z) (sub : bool) :
  Zpos (digits2_pos mx) + ex <= a -> Zpos (digits2_pos my) + ey <= b ->
  -149 <= a -> -149 <= b -> Z.max a b + 2 <= 128 ->
  let ez := Z.min ex ey in
  let X := cond_Zopp sx (Zpos (fst (shl_align mx ex ez))) in
  let Y := cond_Zopp sy (Zpos (fst (shl_align my ey ez))) in
  mag_le (Z.max a b + 2)
    (binary_normalize 24 128 (if sub then X - Y else X + Y) ez false).
Proof.
  intros Ha Hb Hloa Hlob Hhi. cbv zeta.
  set (ez := Z.min ex ey).
  destruct (shl_align_lt mx ex ez a) as [HX HXk]; [unfold ez; lia | exact Ha |].
  destruct (shl_align_lt my ey ez b) as [HY HYk]; [unfold ez; lia | exact Hb |].
  pose proof (pow2_sum_le (a - ez) (b - ez) 0) as Hsum.
  replace (Z.max (a - ez) (b - ez) + 1) with (Z.max a b + 1 - ez) in Hsum by lia.
  replace (Z.max a b + 2) with (Z.max a b + 1 + 1) by lia.
  apply binary_normalize_mag; [|lia|lia|lia].
  apply Z.lt_le_trans with (2 := Hsum ltac:(lia) ltac:(lia)).
  destruct sub, sx, sy; unfold cond_Zopp; lia.
Qed.

Lemma add_mag (a b : Z) (x y : float) :
  mag_le a x -> mag_le b y -> -149 <= a -> -149 <= b -> Z.max a b + 2 <= 128 ->
  mag_le (Z.max a b + 2) (Float.add x y).
Proof.
  intros Hx Hy Ha Hb Hhi. unfold Float.add, Float.prec, Float.emax.
  destruct x as [sx|sx| |sx mx ex], y as [sy|sy| |sy my ey]; simpl in Hx, Hy; try tauto.
  - simpl. destruct sx, sy; exact I.
  - simpl. lia.
  - simpl. lia.
  - unfold SFadd. apply (aligned_sum_mag sx sy mx my ex ey a b false); assumption.
Qed.

Lemma sub_mag (a b : Z) (x y : float) :
  mag_le a x -> mag_le b y -> -149 <= a -> -149 <= b -> Z.max a b + 2 <= 128 ->
  mag_le (Z.max a b + 2) (Float.sub x y).
Proof.
  intros Hx Hy Ha Hb Hhi. unfold Float.sub, Float.prec, Float.emax.
  destruct x as [sx|sx| |sx mx ex], y as [sy|sy| |sy my ey]; simpl in Hx, Hy; try tauto.
  - simpl. destruct sx, sy; exact I.
  - simpl. lia.
  - simpl. lia.
  - unfold SFsub. apply (aligned_sum_mag sx sy mx my ex ey a b true); assumption.
Qed.

(** The quotient by a finite number other than zero. *)
Lemma div_mag (a : Z) (x : float) (sy : bool) (my : positive) (ey : Z) :
  mag_le a x ->
  let M := Z.max (a - (Zpos (digits2_pos my) + ey) + 1) (-149) in
  M + 1 <= 128 ->
  mag_le (M + 1) (Float.div x (S754_finite sy my ey)).
Proof.
  intros Hx M HM. unfold Float.div, Float.prec, Float.emax.
  destruct x as [sx|sx| |sx mx ex]; simpl in Hx; try tauto.
  unfold SFdiv, SFdiv_core_binary.
  change (Zdigits2 (Zpos mx)) with (Zpos (digits2_pos mx)).
  change (Zdigits2 (Zpos my)) with (Zpos (digits2_pos my)).
  set (d1 := Zpos (digits2_pos mx)) in *. set (d2 := Zpos (digits2_pos my)) in *.
  assert (Hfexp : fexp 24 128 (d1 + ex - (d2 + ey)) = Z.max (d1 + ex - (d2 + ey) - 24) (-149))
    by reflexivity.
  set (e' := Z.min (fexp 24 128 (d1 + ex - (d2 + ey))) (ex - ey)) in *.
  set (s := ex - ey - e').
  assert (Hs : 0 <= s) by (unfold s, e'; lia).
  set (m' := match s with Zpos _ => Z.shiftl (Zpos mx) s | Z0 => Zpos mx | Zneg _ => 0 end).
  assert (Hm' : m' = Zpos mx * 2 ^ s).
  { unfold m'. destruct s as [|p|p] eqn:Hsp; [simpl; lia | | lia].
    apply Z.shiftl_mul_pow2. lia. }
  pose proof (digits2_pos_bounds mx) as [_ Hmx]. fold d1 in Hmx.
  pose proof (digits2_pos_bounds my) as [Hmy _]. fold d2 in Hmy.
  assert (Hd1 : 0 < d1) by (unfold d1; lia).
  assert (Hd2 : 0 < d2) by (unfold d2; lia).
  assert (Hm'lt : 0 <= m' < 2 ^ (d1 + s)).
  { rewrite Hm'. rewrite Z.pow_add_r by lia. pose proof (pow2_pos s Hs). nia. }
  assert (Hq : Z.div_eucl m' (Zpos my) = (m' / Zpos my, m' mod Zpos my)).
  { unfold Z.div, Z.modulo. destruct (Z.div_eucl m' (Zpos my)). reflexivity. }
  rewrite Hq.
  set (q := m' / Zpos my).
  assert (Hq0 : 0 <= q) by (apply Z.div_pos; lia).
  assert (Hqd : Zdigits2 q + e' <= M).
  { destruct (Z.le_gt_cases 0 (d1 + s - d2 + 1)) as [Hk|Hk].
    - assert (Hqlt : q < 2 ^ (d1 + s - d2 + 1)).
      { apply Z.div_lt_upper_bound; [lia|].
        apply Z.lt_le_trans with (1 := proj2 Hm'lt).
        assert (Hpow : 2 ^ (d1 + s) = 2 ^ (d2 - 1) * 2 ^ (d1 + s - d2 + 1)).
        { rewrite <- Z.pow_add_r by lia. f_equal. lia. }
        rewrite Hpow.
        pose proof (pow2_pos (d1 + s - d2 + 1) Hk).
        apply Z.mul_le_mono_nonneg_r; [lia | exact Hmy]. }
      assert (Zdigits2 q <= d1 + s - d2 + 1) by (apply Zdigits2_upper; lia).
      unfold M, s in *. lia.
    - assert (Hqz : q = 0).
      { apply Z.div_small. split; [lia|].
        apply Z.lt_le_trans with (2 := Hmy).
        apply Z.lt_le_trans with (1 := proj2 Hm'lt).
        apply Z.pow_le_mono_r; lia. }
      rewrite Hqz. simpl. unfold M, e'. lia. }
  apply binary_round_aux_mag; [exact Hq0 | exact Hqd | unfold M; lia | exact HM |].
  unfold M, e' in *. lia.
Qed.

(** ** The pulldown fraction is finite *)

Lemma mag_sound (x : float) (p : Z) : mag x = Some p -> mag_le p x /\ -149 <= p.
Proof.
  destruct x as [s|s| |s m e]; simpl; try discriminate.
  - intros [= <-]. split; [exact I | lia].
  - intros [= <-]. split; lia.
Qed.

Lemma mag_le_finite (p : Z) (x : float) : mag_le p x -> Float.is_finite x = true.
Proof. destruct x; simpl; tauto. Qed.

Lemma sum_mag_sound (a m r : Z) (x y : float) :
  sum_mag a m = Some r -> mag_le a x -> mag_le m y -> -149 <= a -> -149 <= m ->
  mag_le r (Float.add x y) /\ mag_le r (Float.sub x y) /\ -149 <= r.
Proof.
  unfold sum_mag. cbv zeta. destruct (Z.leb_spec (Z.max a m + 2) 128) as [Hle|]; [|discriminate].
  intros [= <-] Hx Hy Ha Hm. split; [|split].
  - apply add_mag; assumption.
  - apply sub_mag; assumption.
  - lia.
Qed.

Lemma term_mag_sound dt topbit (sb cb : nat) (m : Z) (set : bool) :
  term_mag dt topbit sb cb = Some m ->
  mag_le m (pulldown_term dt topbit sb cb set) /\ -149 <= m.
Proof.
  unfold term_mag.
  destruct (mag (pulldown_term dt topbit sb cb false)) as [m0|] eqn:H0; [|discriminate].
  destruct (mag (pulldown_term dt topbit sb cb true)) as [m1|] eqn:H1; [|discriminate].
  simpl. intros [= <-].
  apply mag_sound in H0. apply mag_sound in H1.
  destruct H0 as [H0 H0lo], H1 as [H1 H1lo].
  destruct set; (split; [|lia]).
  - apply mag_le_mono with (2 := H1). lia.
  - apply mag_le_mono with (2 := H0). lia.
Qed.

Lemma avg_mag_none dt topbit (sb : nat) (l : list nat) :
  avg_mag dt topbit sb l None = None.
Proof. unfold avg_mag. induction l as [|cb l IH]; simpl; [reflexivity | exact IH]. Qed.

(** The magnitude computed for [avg] holds for every accumulator. *)
Lemma avg_mag_sound dt topbit (sb : nat) (acc : Z) (l : list nat) (a a' : Z) (x : float) :
  avg_mag dt topbit sb l (Some a) = Some a' ->
  mag_le a x -> -149 <= a ->
  mag_le a'
    (fold_left Float.add
       (map (fun cb => Float.mul (Float.sub 1%flt (spec_bit topbit acc cb))
                         (spec_weight dt sb cb)) l) x) /\
  -149 <= a'.
Proof.
  revert a x. induction l as [|cb l IH]; intros a x Hfold Hx Ha.
  - simpl in Hfold. injection Hfold as <-. simpl. split; assumption.
  - unfold avg_mag in Hfold. simpl in Hfold.
    destruct (term_mag dt topbit sb cb) as [m|] eqn:Hterm;
      [|simpl in Hfold; fold (avg_mag dt topbit sb l None) in Hfold;
        rewrite avg_mag_none in Hfold; discriminate].
    simpl in Hfold.
    destruct (sum_mag a m) as [r|] eqn:Hsum;
      [|fold (avg_mag dt topbit sb l None) in Hfold;
        rewrite avg_mag_none in Hfold; discriminate].
    fold (avg_mag dt topbit sb l (Some r)) in Hfold.
    destruct (term_mag_sound dt topbit sb cb m (Z.testbit acc (Z.of_nat cb)) Hterm)
      as [Hm Hmlo].
    destruct (sum_mag_sound a m r x _ Hsum Hx Hm Ha Hmlo) as (Hadd & _ & Hr).
    simpl. apply (IH r); assumption.
Qed.

Lemma sub_zero_mag (a : Z) (x : float) (s : bool) :
  mag_le a x -> mag_le a (Float.sub x (S754_zero s)).
Proof. destruct x as [sx|sx| |sx mx ex]; simpl; try tauto. destruct sx, s; exact id. Qed.

(** What [pulldown_check] establishes. *)
Lemma pulldown_check_sound dt topbit ps (sb : nat) (acc : Z) :
  pulldown_check dt topbit ps sb = true ->
  Float.is_finite (spec_pulldown dt topbit ps acc sb) = true.
Proof.
  unfold pulldown_check, spec_pulldown.
  destruct (avg_mag dt topbit sb (others sb) (Some (-149))) as [a|] eqn:Havg; [|discriminate].
  destruct (mag ps) as [p|] eqn:Hps; [|discriminate].
  destruct (spec_n dt sb) as [| | |sn mn en]; try discriminate.
  destruct (avg_mag_sound dt topbit sb acc (others sb) (-149) a 0%flt Havg I ltac:(lia))
    as [Hsum Ha].
  fold (fsum (map (fun cb => Float.mul (Float.sub 1%flt (spec_bit topbit acc cb))
                               (spec_weight dt sb cb)) (others sb))) in Hsum.
  set (avg := fsum _) in *.
  apply mag_sound in Hps. destruct Hps as [Hps Hplo].
  assert (Hsub : forall a', match ps with S754_zero _ => Some a | _ => sum_mag a p end = Some a' ->
                            mag_le a' (Float.sub avg ps)).
  { intros a' Ha'. destruct ps as [s|s| |s m e]; simpl in Hps; try tauto.
    - injection Ha' as <-. apply sub_zero_mag. exact Hsum.
    - apply (sum_mag_sound a p a' avg (S754_finite s m e) Ha' Hsum Hps Ha Hplo). }
  destruct (match ps with S754_zero _ => Some a | _ => sum_mag a p end) as [a'|]; [|discriminate].
  intros Hq. apply Z.leb_le in Hq.
  apply (mag_le_finite _ _ (div_mag a' _ sn mn en (Hsub a' eq_refl) Hq)).
Qed.

(** ** The divisor of the pulldown fraction *)

Lemma map_seq_lookup_total (g : nat -> float) (n k : nat) :
  (k < n)%nat -> map g (seq 0 n) !!! k = g k.
Proof.
  intros Hk. apply list_lookup_total_correct.
  change (map g (seq 0 n)) with (g <$> seq 0 n).
  rewrite list_lookup_fmap, lookup_seq_lt by exact Hk. reflexivity.
Qed.

(** The weight the loop over [cb] reads from the distance table. *)
Lemma spec_weight_built junk (cfg : CombinedWaveformConfig) (sb cb : nat) :
  (sb < 12)%nat -> (cb < 12)%nat -> cb <> sb ->
  spec_weight (build_distancetable junk cfg) sb cb
  = if (sb <? cb)%nat then distFunc cfg (distance1 cfg) (Z.of_nat (cb - sb))
    else distFunc cfg (distance2 cfg) (Z.of_nat (sb - cb)).
Proof.
  intros Hsb Hcb Hne. unfold spec_weight. rewrite build_distancetable_entries.
  rewrite map_seq_lookup_total by lia.
  destruct (Nat.ltb_spec sb cb) as [Hlt|Hge].
  - destruct (Nat.ltb_spec (Z.to_nat (Z.of_nat sb - Z.of_nat cb + 12)) 12); [|lia].
    f_equal. lia.
  - destruct (Nat.ltb_spec (Z.to_nat (Z.of_nat sb - Z.of_nat cb + 12)) 12); [lia|].
    destruct (Nat.eqb_spec (Z.to_nat (Z.of_nat sb - Z.of_nat cb + 12)) 12); [lia|].
    f_equal. lia.
Qed.

(** The weights do not depend on the uninitialised storage, nor on which
    faithful [pow] is linked in. *)
Lemma spec_weight_same_entry pow junk junk' (cfg cfg' : CombinedWaveformConfig)
    (sb cb : nat) :
  Libm.faithful pow -> (sb < 12)%nat -> In cb (others sb) ->
  same_entry pow Libm.pow_nearest cfg cfg' ->
  forallb (fun i => narrow_agree (distance1 cfg') i && narrow_agree (distance2 cfg') i)
    (zseq 1 11) = true ->
  spec_weight (build_distancetable junk cfg) sb cb
  = spec_weight (build_distancetable junk' cfg') sb cb.
Proof.
  intros Hpow Hsb Hcb (_ & _ & _ & Hd1 & Hd2 & Hf) Hagree.
  apply others_spec in Hcb.
  rewrite !spec_weight_built by lia. rewrite Hd1, Hd2.
  destruct Hf as [[Hf Hf']|Hf]; [|rewrite Hf; reflexivity].
  rewrite Hf, Hf'.
  assert (Hi : forall i, 1 <= i <= 11 ->
            narrow_agree (distance1 cfg') i = true /\ narrow_agree (distance2 cfg') i = true).
  { intros i Hi. apply andb_true_iff.
    apply (forallb_zseq _ 1 11 Hagree). simpl. lia. }
  destruct (Nat.ltb_spec sb cb).
  - apply exponentialDistance_determined; [exact Hpow | lia | apply Hi; lia].
  - apply exponentialDistance_determined; [exact Hpow | lia | apply Hi; lia].
Qed.

Lemma spec_n_same_entry pow junk junk' (cfg cfg' : CombinedWaveformConfig) (sb : nat) :
  Libm.faithful pow -> (sb < 12)%nat ->
  same_entry pow Libm.pow_nearest cfg cfg' ->
  forallb (fun i => narrow_agree (distance1 cfg') i && narrow_agree (distance2 cfg') i)
    (zseq 1 11) = true ->
  spec_n (build_distancetable junk cfg) sb = spec_n (build_distancetable junk' cfg') sb.
Proof.
  intros Hpow Hsb Hsame Hagree. unfold spec_n. f_equal.
  apply map_ext_in. intros cb Hcb.
  apply (spec_weight_same_entry pow); assumption.
Qed.

Lemma spec_pulldown_same_entry pow junk junk' (cfg cfg' : CombinedWaveformConfig)
    (acc : Z) (sb : nat) :
  Libm.faithful pow -> (sb < 12)%nat ->
  same_entry pow Libm.pow_nearest cfg cfg' ->
  forallb (fun i => narrow_agree (distance1 cfg') i && narrow_agree (distance2 cfg') i)
    (zseq 1 11) = true ->
  spec_pulldown (build_distancetable junk cfg) (topbit cfg) (pulsestrength cfg) acc sb
  = spec_pulldown (build_distancetable junk' cfg') (topbit cfg') (pulsestrength cfg') acc sb.
Proof.
  intros Hpow Hsb Hsame Hagree. unfold spec_pulldown.
  rewrite (spec_n_same_entry pow junk junk' cfg cfg' sb Hpow Hsb Hsame Hagree).
  destruct Hsame as (Hth & Htb & Hps & Hrest) eqn:Hsame'. rewrite Htb, Hps.
  f_equal. f_equal. f_equal. apply map_ext_in. intros cb Hcb. f_equal.
  apply (spec_weight_same_entry pow); assumption.
Qed.

(** The rows of the parameter arrays, whatever [pow] is. *)
Lemma config_row_same_entry pow (key : cfg_ptr) :
  In key all_rows ->
  Forall2 (same_entry pow Libm.pow_nearest)
    (config_row pow key) (config_row Libm.pow_nearest key).
Proof.
  intros Hkey. simpl in Hkey.
  repeat (destruct Hkey as [<- | Hkey];
          [ repeat constructor;
            first [ left; split; reflexivity | right; reflexivity ] | ]).
  destruct Hkey.
Qed.

Lemma select_cfgArray_row (model : ChipModel) (cws : CombinedWaveforms) :
  In (select_cfgArray model cws) all_rows.
Proof. destruct model, cws; simpl; tauto. Qed.

Lemma all_divisors_checked :
  forallb (fun key => forallb divisor_check (config_row Libm.pow_nearest key)) all_rows = true.
Proof. vm_compute. reflexivity. Qed.

Lemma divisor_check_spec (cfg : CombinedWaveformConfig) :
  divisor_check cfg = true ->
  forallb (fun i => narrow_agree (distance1 cfg) i && narrow_agree (distance2 cfg) i)
    (zseq 1 11) = true /\
  forall sb, (sb < 12)%nat ->
    Float.is_finite_nonzero (spec_n (build_distancetable (fun _ => S754_nan) cfg) sb) = true /\
    pulldown_check (build_distancetable (fun _ => S754_nan) cfg) (topbit cfg)
      (pulsestrength cfg) sb = true.
Proof.
  unfold divisor_check. intros H. apply andb_true_iff in H. destruct H as [Hagree Hsums].
  split; [exact Hagree|]. intros sb Hsb. apply andb_true_iff.
  apply (forallb_seq _ 12 Hsums). exact Hsb.
Qed.

Lemma all_rows_checked (key : cfg_ptr) (cfg : CombinedWaveformConfig) :
  In key all_rows -> In cfg (config_row Libm.pow_nearest key) -> divisor_check cfg = true.
Proof.
  intros Hkey Hcfg. pose proof all_divisors_checked as Hall.
  rewrite forallb_forall in Hall. specialize (Hall key Hkey).
  rewrite forallb_forall in Hall. apply Hall. exact Hcfg.
Qed.

(** The divisor [n] and the pulldown fraction of every parameter entry
    and every output bit. *)
Lemma pulldown_fraction_finite pow junk (key : cfg_ptr) (cfg : CombinedWaveformConfig)
    (wav sb : nat) (acc : Z) :
  Libm.faithful pow -> In key all_rows ->
  config_row pow key !! wav = Some cfg -> (sb < 12)%nat ->
  Float.is_finite_nonzero (spec_n (build_distancetable junk cfg) sb) = true /\
  Float.is_finite
    (spec_pulldown (build_distancetable junk cfg) (topbit cfg) (pulsestrength cfg) acc sb)
  = true.
Proof.
  intros Hpow Hkey Hcfg Hsb.
  destruct (Forall2_lookup_l _ _ _ _ _ (config_row_same_entry pow key Hkey) Hcfg)
    as (cfg' & Hcfg' & Hsame).
  assert (Hin : In cfg' (config_row Libm.pow_nearest key)).
  { apply list_elem_of_In. apply list_elem_of_lookup. eauto. }
  destruct (divisor_check_spec cfg' (all_rows_checked key cfg' Hkey Hin)) as [Hagree Hsums].
  destruct (Hsums sb Hsb) as [Hn Hpd].
  rewrite (spec_n_same_entry pow junk (fun _ => S754_nan) cfg cfg' sb Hpow Hsb Hsame Hagree).
  rewrite (spec_pulldown_same_entry pow junk (fun _ => S754_nan) cfg cfg' acc sb
             Hpow Hsb Hsame Hagree).
  split; [exact Hn|]. apply pulldown_check_sound. exact Hpd.
Qed.

Lemma config_row_length pow (key : cfg_ptr) :
  In key all_rows -> length (config_row pow key) = 5%nat.
Proof.
  intros Hkey. simpl in Hkey.
  repeat (destruct Hkey as [<- | Hkey]; [reflexivity|]). destruct Hkey.
Qed.

Lemma config_row_lookup pow (key : cfg_ptr) (wav : nat) :
  In key all_rows -> (wav < 5)%nat ->
  config_row pow key !! wav = Some (config_row pow key !!! wav).
Proof.
  intros Hkey Hwav. apply list_lookup_lookup_total_lt.
  rewrite config_row_length by exact Hkey. exact Hwav.
Qed.

(** * The properties of the specification *)

(** C1 (as amended).  For every accumulator value, [calculatePulldown]
    computes for each output bit [sb] in 0..11 the pulldown fraction
    [spec_pulldown]: the sum over all [cb <> sb] of
    [(1 - bit[cb]) * distancetable[sb - cb + 12]], minus [pulsestrength],
    divided by the sum over all [cb <> sb] of [distancetable[sb - cb + 12]].
    Provided the threshold is not negative, bit [sb] of the result is set
    iff [bit[sb] > 0] and [1 - pulldown[sb] > threshold]; the result has no
    other bits than these twelve. *)
Theorem calculatePulldown_bits junk dt topbit ps th acc (sb : nat) :
  (sb < 12)%nat ->
  Float.gt 0%flt th = false ->
  for_loop 0 12 (pulldown_sb dt (pulldown_bits junk topbit acc) ps) (float_array junk 12) !!! sb
  = spec_pulldown dt topbit ps acc sb /\
  Z.testbit (calculatePulldown junk dt topbit ps th acc) (Z.of_nat sb)
  = Float.gt (spec_bit topbit acc sb) 0%flt &&
    Float.gt (Float.sub 1%flt (spec_pulldown dt topbit ps acc sb)) th /\
  0 <= calculatePulldown junk dt topbit ps th acc < 2 ^ 12.
Proof.
  intros Hsb Hth. split; [|split].
  - apply pulldown_array_lookup. exact Hsb.
  - rewrite calculatePulldown_testbit by exact Hsb.
    destruct (Float.gt (spec_bit topbit acc sb) 0%flt); simpl.
    + reflexivity.
    + exact Hth.
  - pose proof (calculatePulldown_range junk dt topbit ps th acc) as H.
    change (2 ^ 12) with 4096. lia.
Qed.

Lemma calculatePulldown_bits_witness :
  (3 < 12)%nat /\ Float.gt 0%flt 0.5%flt = false /\
  (for_loop 0 12
     (pulldown_sb flat_distancetable (pulldown_bits junk_float0 1%flt 0xfff) 0%flt)
     (float_array junk_float0 12) !!! 3%nat
   = spec_pulldown flat_distancetable 1%flt 0%flt 0xfff 3 /\
   Z.testbit (calculatePulldown junk_float0 flat_distancetable 1%flt 0%flt 0.5%flt 0xfff)
     (Z.of_nat 3)
   = Float.gt (spec_bit 1%flt 0xfff 3) 0%flt &&
     Float.gt (Float.sub 1%flt (spec_pulldown flat_distancetable 1%flt 0%flt 0xfff 3)) 0.5%flt /\
   0 <= calculatePulldown junk_float0 flat_distancetable 1%flt 0%flt 0.5%flt 0xfff < 2 ^ 12).
Proof.
  assert (Hsb : (3 < 12)%nat) by lia.
  assert (Hth : Float.gt 0%flt 0.5%flt = false) by reflexivity.
  exact (conj Hsb (conj Hth
           (calculatePulldown_bits junk_float0 flat_distancetable 1%flt 0%flt 0.5%flt 0xfff 3
              Hsb Hth))).
Defined.

(** C1, as stated, fails for a negative threshold: with no accumulator
    bit set the code sets every output bit. *)
Lemma calculatePulldown_negative_threshold :
  Z.testbit (calculatePulldown junk_float0 flat_distancetable 1%flt 0%flt (Float.dec (-1) 0) 0) 0
  = true /\
  Float.gt (spec_bit 1%flt 0 0) 0%flt &&
  Float.gt (Float.sub 1%flt (spec_pulldown flat_distancetable 1%flt 0%flt 0 0)) (Float.dec (-1) 0)
  = false.
Proof. split; vm_compute; reflexivity. Qed.

(** C2.  Calling [buildPulldownTable] twice for the same model and
    variance class returns the same pointer, hence the same table; the
    second call leaves the cache, the heap and the count of table
    computations as they were.  Whenever the selected parameter row is
    already cached, the cached node is returned and nothing changes. *)
Theorem buildPulldownTable_memoized pow junk_f junk_s model cws st :
  let r1 := buildPulldownTable pow junk_f junk_s model cws st in
  let r2 := buildPulldownTable pow junk_f junk_s model cws r1.2 in
  r2.1 = r1.1 /\
  r2.2 = r1.2 /\
  deref r2.2 r2.1 = deref r1.2 r1.1 /\
  pulldown_builds r2.2 = pulldown_builds r1.2 /\
  (forall node,
     PULLDOWN_CACHE st !! select_cfgArray model cws = Some node -> r1 = (node, st)).
Proof.
  cbv zeta.
  pose proof (buildPulldownTable_cached pow junk_f junk_s model cws st) as Hcached.
  rewrite (buildPulldownTable_hit pow junk_f junk_s model cws _ _ Hcached). simpl.
  repeat split. intros node Hnode. apply buildPulldownTable_hit. exact Hnode.
Qed.

Lemma buildPulldownTable_memoized_witness :
  PULLDOWN_CACHE state_one_node !! select_cfgArray MOS6581 AVERAGE = Some 7%nat /\
  buildPulldownTable Libm.pow_nearest junk_float0 junk_short0 MOS6581 AVERAGE state_one_node
  = (7%nat, state_one_node).
Proof.
  assert (H : PULLDOWN_CACHE state_one_node !! select_cfgArray MOS6581 AVERAGE = Some 7%nat)
    by reflexivity.
  exact (conj H
           (proj2 (proj2 (proj2 (proj2
              (buildPulldownTable_memoized Libm.pow_nearest junk_float0 junk_short0
                 MOS6581 AVERAGE state_one_node)))) 7%nat H)).
Defined.

(** C3.  The distance table of a parameter entry has 25 entries: the one
    at index 12 is [1.0]; for [i] in 1..12 the one at [12 - i] is the
    entry's distance function applied to [(distance1, i)] and the one at
    [12 + i] is it applied to [(distance2, i)]. *)
Theorem build_distancetable_spec junk (cfg : CombinedWaveformConfig) (i : nat) :
  (1 <= i <= 12)%nat ->
  length (build_distancetable junk cfg) = 25%nat /\
  build_distancetable junk cfg !! 12%nat = Some 1%flt /\
  build_distancetable junk cfg !! (12 - i)%nat
  = Some (distFunc cfg (distance1 cfg) (Z.of_nat i)) /\
  build_distancetable junk cfg !! (12 + i)%nat
  = Some (distFunc cfg (distance2 cfg) (Z.of_nat i)).
Proof.
  intros Hi. rewrite build_distancetable_entries.
  split; [reflexivity|]. split; [reflexivity|].
  change (map ?g (seq 0 25)) with (g <$> seq 0 25).
  rewrite !list_lookup_fmap.
  rewrite (lookup_seq_lt 0 25 (12 - i)), (lookup_seq_lt 0 25 (12 + i)) by lia.
  cbn [fmap option_fmap option_map]. rewrite !Nat.add_0_l.
  destruct (Nat.ltb_spec (12 - i) 12); [|lia].
  destruct (Nat.ltb_spec (12 + i) 12); [lia|].
  destruct (Nat.eqb_spec (12 + i) 12); [lia|].
  split; do 3 f_equal; lia.
Qed.

Lemma build_distancetable_spec_witness :
  (1 <= 3 <= 12)%nat /\
  (length (build_distancetable junk_float0 linear_config) = 25%nat /\
   build_distancetable junk_float0 linear_config !! 12%nat = Some 1%flt /\
   build_distancetable junk_float0 linear_config !! (12 - 3)%nat
   = Some (distFunc linear_config (distance1 linear_config) (Z.of_nat 3)) /\
   build_distancetable junk_float0 linear_config !! (12 + 3)%nat
   = Some (distFunc linear_config (distance2 linear_config) (Z.of_nat 3))).
Proof.
  assert (Hi : (1 <= 3 <= 12)%nat) by lia.
  exact (conj Hi (build_distancetable_spec junk_float0 linear_config 3 Hi)).
Defined.

(** C4.  For every phase in 0..4095 the basic waveform table holds: in
    row 0 the constant 4095; in row 1 the phase shifted left by one when
    its bit 11 is clear and [phase XOR 0xFFF] shifted left by one when it
    is set; in row 2 the phase; in row 3 the phase ANDed with itself
    shifted left by one. *)
Theorem wftable_spec (cell : nat -> nat -> Z) (phase : Z) :
  0 <= phase < 4096 ->
  let wf := wftable (WaveformCalculator cell) in
  matrix_get wf 0 (Z.to_nat phase) = Some 4095 /\
  matrix_get wf 1 (Z.to_nat phase)
  = Some (if Z.testbit phase 11 then Z.shiftl (Z.lxor phase 0xFFF) 1 else Z.shiftl phase 1) /\
  matrix_get wf 2 (Z.to_nat phase) = Some phase /\
  matrix_get wf 3 (Z.to_nat phase) = Some (Z.land phase (Z.shiftl phase 1)).
Proof.
  intros Hphase. cbv zeta.
  pose proof (wf_cell_checked phase Hphase) as Hcheck. unfold wf_cell_check in Hcheck.
  repeat (apply andb_true_iff in Hcheck; destruct Hcheck as [Hcheck ?]).
  rewrite !wftable_cells by lia. rewrite Z2Nat.id by lia.
  repeat split; f_equal; apply Z.eqb_eq; assumption.
Qed.

Lemma wftable_spec_witness :
  0 <= 2048 < 4096 /\
  (matrix_get (wftable (WaveformCalculator junk_short0)) 0 (Z.to_nat 2048) = Some 4095 /\
   matrix_get (wftable (WaveformCalculator junk_short0)) 1 (Z.to_nat 2048)
   = Some (if Z.testbit 2048 11 then Z.shiftl (Z.lxor 2048 0xFFF) 1 else Z.shiftl 2048 1) /\
   matrix_get (wftable (WaveformCalculator junk_short0)) 2 (Z.to_nat 2048) = Some 2048 /\
   matrix_get (wftable (WaveformCalculator junk_short0)) 3 (Z.to_nat 2048)
   = Some (Z.land 2048 (Z.shiftl 2048 1))).
Proof.
  assert (H : 0 <= 2048 < 4096) by lia.
  exact (conj H (wftable_spec junk_short0 2048 H)).
Defined.

(** C5 (as amended).  Golden values of the basic waveform table:
    triangle at phase 0 is 0, triangle at phase 2048 is 4094, sawtooth at
    phase 100 is 100, and constant-high is 4095 at every phase. *)
Theorem wftable_golden (cell : nat -> nat -> Z) :
  let wf := wftable (WaveformCalculator cell) in
  matrix_get wf 1 0 = Some 0 /\
  matrix_get wf 1 2048 = Some 4094 /\
  matrix_get wf 2 100 = Some 100 /\
  (forall phase : nat, (phase < 4096)%nat -> matrix_get wf 0 phase = Some 4095).
Proof.
  cbv zeta. rewrite !wftable_cells by lia.
  repeat split.
  intros phase Hphase. rewrite wftable_cells by lia. reflexivity.
Qed.

Lemma wftable_golden_witness :
  (4095 < 4096)%nat /\
  matrix_get (wftable (WaveformCalculator junk_short0)) 0 4095 = Some 4095.
Proof.
  assert (H : (4095 < 4096)%nat) by lia.
  exact (conj H (proj2 (proj2 (proj2 (wftable_golden junk_short0))) 4095%nat H)).
Defined.

(** C5, as stated, fails: the triangle at phase 2048 is 4094, not 8190. *)
Lemma wftable_triangle_2048 :
  matrix_get (wftable (WaveformCalculator junk_short0)) 1 2048 = Some 4094 /\
  Some 4094 <> Some 8190.
Proof.
  split; [|discriminate].
  rewrite wftable_cells by lia. reflexivity.
Qed.

(** C6.  For [i] in 1..12 and every [float] distance, in [float]
    arithmetic: [exponentialDistance] is the C library's [pow] of the
    distance and [- i], converted to [float], and with a faithful [pow]
    and a positive distance that is the [float] of one of the two
    doubles enclosing the exact [distance ^ (- i)]; [linearDistance] is
    [1 / (1 + i * distance)]; [quadraticDistance] is
    [1 / (1 + (i * i) * distance)]. *)
Theorem distance_functions_spec pow (distance : float) (i : Z) :
  1 <= i <= 12 ->
  exponentialDistance pow distance i
  = Double.to_float (pow (Double.of_float distance) (Double.of_int (- i))) /\
  (Libm.faithful pow -> Libm.positive_finite distance = true ->
   In (exponentialDistance pow distance i)
      (map Double.to_float (Libm.neighbours (Double.of_float distance) i))) /\
  linearDistance distance i
  = Float.div 1%flt (Float.add 1%flt (Float.mul (Float.of_int i) distance)) /\
  quadraticDistance distance i
  = Float.div 1%flt (Float.add 1%flt (Float.mul (Float.of_int (i * i)) distance)).
Proof.
  intros Hi. unfold exponentialDistance, quadraticDistance.
  rewrite !to_int_small by nia. repeat split.
  intros Hpow Hpos. apply in_map. apply Hpow; assumption.
Qed.

Lemma distance_functions_spec_witness :
  1 <= 3 <= 12 /\
  (exponentialDistance Libm.pow_nearest 2.5%flt 3
   = Double.to_float (Libm.pow_nearest (Double.of_float 2.5%flt) (Double.of_int (- 3))) /\
   (Libm.faithful Libm.pow_nearest -> Libm.positive_finite 2.5%flt = true ->
    In (exponentialDistance Libm.pow_nearest 2.5%flt 3)
       (map Double.to_float (Libm.neighbours (Double.of_float 2.5%flt) 3))) /\
   linearDistance 2.5%flt 3
   = Float.div 1%flt (Float.add 1%flt (Float.mul (Float.of_int 3) 2.5%flt)) /\
   quadraticDistance 2.5%flt 3
   = Float.div 1%flt (Float.add 1%flt (Float.mul (Float.of_int (3 * 3)) 2.5%flt))).
Proof.
  assert (H : 1 <= 3 <= 12) by lia.
  exact (conj H (distance_functions_spec Libm.pow_nearest 2.5%flt 3 H)).
Defined.

(** C7.  For every model and variance class and every phase in 0..4095:
    the table [buildPulldownTable] returns has in its
    pulse+triangle+sawtooth row (row 3) a value in [0, 4095]; the basic
    sawtooth row holds a value in [0, 4095] and the basic triangle row a
    value in [0, 8190]. *)
Theorem table_ranges pow junk_f junk_s (cell : nat -> nat -> Z) model cws st (phase : nat) :
  cache_ok pow junk_f junk_s st ->
  (phase < 4096)%nat ->
  (exists tbl v,
     deref (buildPulldownTable pow junk_f junk_s model cws st).2
       (buildPulldownTable pow junk_f junk_s model cws st).1 = Some tbl /\
     matrix_get tbl 3 phase = Some v /\ 0 <= v <= 4095) /\
  (exists v, matrix_get (wftable (WaveformCalculator cell)) 2 phase = Some v /\
             0 <= v <= 4095) /\
  (exists v, matrix_get (wftable (WaveformCalculator cell)) 1 phase = Some v /\
             0 <= v <= 8190).
Proof.
  intros Hok Hphase.
  assert (Hz : 0 <= Z.of_nat phase < 4096) by lia.
  pose proof (wf_cell_checked _ Hz) as Hcheck. unfold wf_cell_check in Hcheck.
  repeat (apply andb_true_iff in Hcheck; destruct Hcheck as [Hcheck ?]).
  split; [|split].
  - eexists. eexists. split; [apply buildPulldownTable_deref; exact Hok|].
    rewrite build_pdTable_cells by lia. split; [reflexivity|].
    rewrite to_short_small;
      match goal with
      | |- context [calculatePulldown ?j ?dt ?tb ?ps ?th ?acc] =>
          pose proof (calculatePulldown_range j dt tb ps th acc)
      end; lia.
  - eexists. split; [apply wftable_cells; lia|]. lia.
  - eexists. split; [apply wftable_cells; lia|]. lia.
Qed.

Lemma table_ranges_witness :
  cache_ok Libm.pow_nearest junk_float0 junk_short0 initial_state /\
  (100 < 4096)%nat /\
  ((exists tbl v,
     deref (buildPulldownTable Libm.pow_nearest junk_float0 junk_short0 MOS6581 AVERAGE
              initial_state).2
       (buildPulldownTable Libm.pow_nearest junk_float0 junk_short0 MOS6581 AVERAGE
          initial_state).1 = Some tbl /\
     matrix_get tbl 3 100 = Some v /\ 0 <= v <= 4095) /\
   (exists v, matrix_get (wftable (WaveformCalculator junk_short0)) 2 100 = Some v /\
              0 <= v <= 4095) /\
   (exists v, matrix_get (wftable (WaveformCalculator junk_short0)) 1 100 = Some v /\
              0 <= v <= 8190)).
Proof.
  assert (Hok : cache_ok Libm.pow_nearest junk_float0 junk_short0 initial_state)
    by apply cache_ok_initial.
  assert (Hphase : (100 < 4096)%nat) by lia.
  exact (conj Hok (conj Hphase
           (table_ranges Libm.pow_nearest junk_float0 junk_short0 junk_short0
              MOS6581 AVERAGE initial_state 100 Hok Hphase))).
Defined.

(** C9.  A [CombinedWaveforms] value that is none of [AVERAGE], [WEAK]
    and [STRONG] is handled as [AVERAGE]: the average parameter row of
    the model is selected, and the call returns what the call with
    [AVERAGE] returns, the cached node or a newly built average table. *)
Theorem buildPulldownTable_default pow junk_f junk_s model (raw : Z) st :
  let modelIdx := match model with MOS6581 => 0%nat | _ => 1%nat end in
  select_cfgArray model (CombinedWaveforms_other raw) = (ConfigAverage, modelIdx) /\
  buildPulldownTable pow junk_f junk_s model (CombinedWaveforms_other raw) st
  = buildPulldownTable pow junk_f junk_s model AVERAGE st /\
  match PULLDOWN_CACHE st !! (ConfigAverage, modelIdx) with
  | Some node =>
      buildPulldownTable pow junk_f junk_s model (CombinedWaveforms_other raw) st = (node, st)
  | None =>
      deref (buildPulldownTable pow junk_f junk_s model (CombinedWaveforms_other raw) st).2
        (buildPulldownTable pow junk_f junk_s model (CombinedWaveforms_other raw) st).1
      = Some (build_pdTable junk_f junk_s (configAverage pow !!! modelIdx))
  end.
Proof.
  cbv zeta. split; [reflexivity|]. split; [reflexivity|].
  destruct (PULLDOWN_CACHE st !! (ConfigAverage, match model with MOS6581 => 0%nat | _ => 1%nat end))
    as [node|] eqn:Hkey.
  - apply buildPulldownTable_hit. exact Hkey.
  - apply (buildPulldownTable_miss pow junk_f junk_s model (CombinedWaveforms_other raw) st).
    exact Hkey.
Qed.

(** C10.  Whatever the distance table, [topbit], [pulsestrength] and
    [threshold], the value [calculatePulldown] returns lies in [0, 4095]
    and depends only on the low 12 bits of the accumulator; so every
    cell of all five rows of a built pulldown table is a nonnegative
    12-bit value. *)
Theorem calculatePulldown_12bit junk dt topbit ps th acc :
  0 <= calculatePulldown junk dt topbit ps th acc <= 4095 /\
  calculatePulldown junk dt topbit ps th acc
  = calculatePulldown junk dt topbit ps th (acc mod 4096) /\
  (forall junk_s cfgArray,
     matrix_cells (fun v => 0 <= v <= 4095) (build_pdTable junk junk_s cfgArray) 5 4096).
Proof.
  split; [apply calculatePulldown_range|].
  split; [symmetry; apply calculatePulldown_low|].
  intros junk_s cfgArray r c Hr Hc. eexists.
  split; [apply build_pdTable_cells; assumption|].
  rewrite to_short_small;
    match goal with
    | |- context [calculatePulldown ?j ?d ?tb ?p ?t ?a] =>
        pose proof (calculatePulldown_range j d tb p t a)
    end; lia.
Qed.

(** C8.  With a faithful [pow], for every one of the 30 parameter
    entries, every output bit [sb] in 0..11 and every accumulator: the
    divisor [n] that [calculatePulldown] computes is finite and not zero,
    and the pulldown fraction [(avg - pulsestrength) / n] is finite,
    neither a NaN nor an infinity. *)
Theorem pulldown_divisor_finite pow junk model cws (wav sb : nat) (acc : Z) :
  Libm.faithful pow -> (wav < 5)%nat -> (sb < 12)%nat ->
  let cfg := config_row pow (select_cfgArray model cws) !!! wav in
  let distancetable := build_distancetable junk cfg in
  let bit := pulldown_bits junk (topbit cfg) acc in
  Float.is_finite_nonzero (pulldown_sums distancetable bit sb).2 = true /\
  Float.is_finite
    (for_loop 0 12 (pulldown_sb distancetable bit (pulsestrength cfg))
       (float_array junk 12) !!! sb) = true.
Proof.
  intros Hpow Hwav Hsb. cbv zeta.
  rewrite pulldown_sums_spec, pulldown_array_lookup by exact Hsb. simpl snd.
  apply (pulldown_fraction_finite pow junk (select_cfgArray model cws) _ wav sb acc Hpow).
  - apply select_cfgArray_row.
  - apply config_row_lookup; [apply select_cfgArray_row | exact Hwav].
  - exact Hsb.
Qed.

Lemma pulldown_divisor_finite_witness :
  Libm.faithful Libm.pow_nearest /\ (0 < 5)%nat /\ (0 < 12)%nat /\
  (let cfg := config_row Libm.pow_nearest (select_cfgArray MOS6581 STRONG) !!! 0%nat in
   let distancetable := build_distancetable junk_float0 cfg in
   let bit := pulldown_bits junk_float0 (topbit cfg) 0 in
   Float.is_finite_nonzero (pulldown_sums distancetable bit 0).2 = true /\
   Float.is_finite
     (for_loop 0 12 (pulldown_sb distancetable bit (pulsestrength cfg))
        (float_array junk_float0 12) !!! 0%nat) = true).
Proof.
  assert (Hwav : (0 < 5)%nat) by lia.
  assert (Hsb : (0 < 12)%nat) by lia.
  exact (conj pow_nearest_faithful (conj Hwav (conj Hsb
           (pulldown_divisor_finite Libm.pow_nearest junk_float0 MOS6581 STRONG 0 0 0
              pow_nearest_faithful Hwav Hsb)))).
Defined.

(** * Further properties of the code *)

(** ** Bits of 12-bit values *)

Lemma bits_above_12 (a n : Z) : 0 <= a < 4096 -> 12 <= n -> Z.testbit a n = false.
Proof.
  intros Ha Hn. apply Z.testbit_false; [lia|].
  rewrite Z.div_small; [reflexivity|].
  assert (H : 2 ^ 12 <= 2 ^ n) by (apply Z.pow_le_mono_r; lia).
  change (2 ^ 12) with 4096 in H. lia.
Qed.

Lemma low_bits_eq (a b : Z) :
  0 <= a < 4096 -> 0 <= b < 4096 ->
  (forall sb : nat, (sb < 12)%nat ->
     Z.testbit a (Z.of_nat sb) = Z.testbit b (Z.of_nat sb)) ->
  a = b.
Proof.
  intros Ha Hb H. apply Z.bits_inj'. intros n Hn.
  destruct (Z_lt_dec n 12) as [Hlt|Hge].
  - rewrite <- (Z2Nat.id n) by exact Hn. apply H. lia.
  - rewrite !bits_above_12 by lia. reflexivity.
Qed.

(** A value whose bits are among those of [b] is at most [b]. *)
Lemma land_le (v b : Z) : 0 <= b -> Z.land v b = v -> v <= b.
Proof.
  intros Hb Hv.
  assert (Hdisj : Z.land v (Z.ldiff b v) = 0).
  { apply Z.bits_inj'. intros n Hn.
    rewrite Z.land_spec, Z.ldiff_spec, Z.bits_0.
    destruct (Z.testbit v n), (Z.testbit b n); reflexivity. }
  assert (Hsum : Z.lxor v (Z.ldiff b v) = b).
  { apply Z.bits_inj'. intros n Hn.
    rewrite Z.lxor_spec, Z.ldiff_spec.
    assert (Hbit : Z.testbit (Z.land v b) n = Z.testbit v n) by (rewrite Hv; reflexivity).
    rewrite Z.land_spec in Hbit.
    destruct (Z.testbit v n), (Z.testbit b n); simpl in *; congruence. }
  pose proof (Z.add_nocarry_lxor _ _ Hdisj) as Hadd. rewrite Hsum in Hadd.
  assert (Hnn : 0 <= Z.ldiff b v) by (apply Z.ldiff_nonneg; left; exact Hb).
  lia.
Qed.

(** ** Matrices *)

Lemma matrix_ext (m m' : matrix_t) (rows cols : nat) :
  matrix_dims m rows cols -> matrix_dims m' rows cols ->
  (forall r c, (r < rows)%nat -> (c < cols)%nat -> matrix_get m r c = matrix_get m' r c) ->
  m = m'.
Proof.
  intros [Hl Hr] [Hl' Hr'] H. apply list_eq. intros r.
  destruct (decide (r < rows)%nat) as [Hlt|Hge].
  - destruct (lookup_lt_is_Some_2 m r) as [row Hrow]; [lia|].
    destruct (lookup_lt_is_Some_2 m' r) as [row' Hrow']; [lia|].
    rewrite Hrow, Hrow'. f_equal.
    pose proof (proj1 (Forall_lookup _ _) Hr r row Hrow) as Hlen.
    pose proof (proj1 (Forall_lookup _ _) Hr' r row' Hrow') as Hlen'.
    simpl in Hlen, Hlen'.
    apply list_eq. intros c.
    destruct (decide (c < cols)%nat) as [Hc|Hc].
    + specialize (H r c Hlt Hc). unfold matrix_get in H.
      rewrite Hrow, Hrow' in H. exact H.
    + rewrite !lookup_ge_None_2 by lia. reflexivity.
  - rewrite !lookup_ge_None_2 by lia. reflexivity.
Qed.

Lemma wftable_dims (cell : nat -> nat -> Z) :
  matrix_dims (wftable (WaveformCalculator cell)) 4 4096.
Proof.
  simpl.
  apply (for_loop_invariant (fun _ m => matrix_dims m 4 4096)).
  - apply matrix_alloc_dims.
  - intros k m _ Hd. apply WaveformCalculator_body_dims. exact Hd.
Qed.

Lemma build_pdTable_dims junk_f junk_s (cfgArray : list CombinedWaveformConfig) :
  matrix_dims (build_pdTable junk_f junk_s cfgArray) 5 4096.
Proof.
  unfold build_pdTable.
  apply (for_loop_invariant (fun _ m => matrix_dims m 5 4096)).
  - apply matrix_alloc_dims.
  - intros k m Hk Hd. simpl. unfold pdTable_wav. cbv zeta.
    pose proof (matrix_row_fill
                  (fun i => calculatePulldown junk_f (build_distancetable junk_f (cfgArray !!! k))
                              (topbit (cfgArray !!! k)) (pulsestrength (cfgArray !!! k))
                              (threshold (cfgArray !!! k)) (Z.of_nat i))
                  k 5 4096 m Hd Hk) as Hfill.
    cbv zeta in Hfill. destruct Hfill as (Hd' & _). exact Hd'.
Qed.

(** ** The pulldown calculator *)

(** The result is the same whenever the pulldown fractions are. *)
Lemma calculatePulldown_ext junk junk' dt dt' topbit ps th acc :
  (forall sb, (sb < 12)%nat ->
     spec_pulldown dt topbit ps acc sb = spec_pulldown dt' topbit ps acc sb) ->
  calculatePulldown junk dt topbit ps th acc = calculatePulldown junk' dt' topbit ps th acc.
Proof.
  intros H.
  pose proof (calculatePulldown_range junk dt topbit ps th acc) as Hr.
  pose proof (calculatePulldown_range junk' dt' topbit ps th acc) as Hr'.
  apply low_bits_eq; [lia | lia |].
  intros sb Hsb. rewrite !calculatePulldown_testbit by exact Hsb.
  rewrite H by exact Hsb. reflexivity.
Qed.

(** [bit[i] > 0] only where the accumulator bit is set, whatever
    [topbit] is. *)
Lemma spec_bit_gt_set (topbit : float) (acc : Z) (i : nat) :
  Float.gt (spec_bit topbit acc i) 0%flt = true -> Z.testbit acc (Z.of_nat i) = true.
Proof.
  unfold spec_bit, bit_of.
  destruct (Z.testbit acc (Z.of_nat i)); [reflexivity|].
  destruct (i =? 11)%nat.
  - destruct topbit as [[]|[]| |[] m e]; intros H; vm_compute in H; discriminate H.
  - intros H; vm_compute in H; discriminate H.
Qed.

(** With a threshold that is not negative, an output bit is set only
    where the accumulator bit is. *)
Lemma calculatePulldown_land junk dt topbit ps th acc :
  Float.gt 0%flt th = false ->
  Z.land (calculatePulldown junk dt topbit ps th acc) acc
  = calculatePulldown junk dt topbit ps th acc.
Proof.
  intros Hth.
  pose proof (calculatePulldown_range junk dt topbit ps th acc) as Hr.
  apply Z.bits_inj'. intros n Hn. rewrite Z.land_spec.
  destruct (Z_lt_dec n 12) as [Hlt|Hge].
  - rewrite <- (Z2Nat.id n) by exact Hn.
    rewrite calculatePulldown_testbit by lia.
    destruct (Float.gt (spec_bit topbit acc (Z.to_nat n)) 0%flt) eqn:Hbit.
    + rewrite (spec_bit_gt_set _ _ _ Hbit). apply andb_true_r.
    + rewrite Hth. reflexivity.
  - rewrite (bits_above_12 (calculatePulldown junk dt topbit ps th acc) n) by lia.
    reflexivity.
Qed.

(** No number is greater than a NaN or than [+inf]. *)
Lemma gt_nan (x : float) : Float.gt x S754_nan = false.
Proof. destruct x as [[]|[]| |[] m e]; reflexivity. Qed.

Lemma gt_infinity (x : float) : Float.gt x (S754_infinity false) = false.
Proof. destruct x as [[]|[]| |[] m e]; reflexivity. Qed.

(** The thresholds of the thirty parameter entries are not negative. *)
Lemma thresholds_nonneg pow (key : cfg_ptr) :
  In key all_rows ->
  Forall (fun cfg => Float.gt 0%flt (threshold cfg) = false) (config_row pow key).
Proof.
  intros Hkey. simpl in Hkey.
  repeat (destruct Hkey as [<- | Hkey]; [repeat constructor|]).
  destruct Hkey.
Qed.

(** ** The cache *)

Section CacheInvariant.

Variable pow : double -> double -> double.
Variable junk_float : nat -> float.
Variable junk_short : nat -> nat -> Z.

#[local] Abbreviation build := (buildPulldownTable pow junk_float junk_short).
#[local] Abbreviation run_calls := (run pow junk_float junk_short).

(** A call leaves every cached key with its node. *)
Lemma buildPulldownTable_keeps_keys model cws st key node :
  PULLDOWN_CACHE st !! key = Some node ->
  PULLDOWN_CACHE (build model cws st).2 !! key = Some node.
Proof.
  intros Hkey. unfold buildPulldownTable. cbv zeta.
  destruct (PULLDOWN_CACHE st !! select_cfgArray model cws) as [n|] eqn:H; simpl.
  - exact Hkey.
  - rewrite lookup_insert_ne; [exact Hkey|]. congruence.
Qed.

(** A call leaves every table of the heap where and as it is. *)
Lemma buildPulldownTable_keeps_tables model cws st p t :
  deref st p = Some t -> deref (build model cws st).2 p = Some t.
Proof.
  intros Hp. unfold buildPulldownTable. cbv zeta.
  destruct (PULLDOWN_CACHE st !! select_cfgArray model cws) as [n|] eqn:H; simpl.
  - exact Hp.
  - unfold deref in *. simpl. rewrite lookup_insert_ne; [exact Hp|].
    intros Heq. pose proof (is_fresh (dom (heap st))) as Hfresh.
    apply Hfresh. apply elem_of_dom. rewrite Heq. eauto.
Qed.

Lemma cache_inv_initial : cache_inv initial_state.
Proof.
  split; [|split].
  - intros key node H. simpl in H. rewrite lookup_empty in H. discriminate.
  - intros key1 key2 node H. simpl in H. rewrite lookup_empty in H. discriminate.
  - reflexivity.
Qed.

Lemma cache_inv_build model cws st :
  cache_inv st -> cache_inv (build model cws st).2.
Proof.
  intros (Hkeys & Hinj & Hsize). unfold buildPulldownTable. cbv zeta.
  destruct (PULLDOWN_CACHE st !! select_cfgArray model cws) as [n|] eqn:H; simpl.
  - split; [exact Hkeys | split; [exact Hinj | exact Hsize]].
  - pose proof (is_fresh (dom (heap st))) as Hfresh.
    assert (Hold : forall key node,
               PULLDOWN_CACHE st !! key = Some node -> node <> fresh (dom (heap st))).
    { intros key node Hk ->. apply Hfresh. apply elem_of_dom.
      apply (Hkeys key _ Hk). }
    split; [|split]; simpl.
    + intros key node Hk.
      destruct (decide (key = select_cfgArray model cws)) as [->|Hne].
      * rewrite lookup_insert_eq in Hk. injection Hk as <-.
        split; [apply select_cfgArray_row|]. rewrite lookup_insert_eq. eauto.
      * rewrite lookup_insert_ne in Hk by congruence.
        split; [apply (Hkeys key node Hk)|].
        rewrite lookup_insert_ne by (intros Heq; apply (Hold key node Hk); congruence).
        apply (Hkeys key node Hk).
    + intros key1 key2 node H1 H2.
      destruct (decide (key1 = select_cfgArray model cws)) as [->|Hne1];
        destruct (decide (key2 = select_cfgArray model cws)) as [->|Hne2].
      * reflexivity.
      * rewrite lookup_insert_eq in H1. injection H1 as <-.
        rewrite lookup_insert_ne in H2 by congruence.
        exfalso. apply (Hold key2 _ H2). reflexivity.
      * rewrite lookup_insert_eq in H2. injection H2 as <-.
        rewrite lookup_insert_ne in H1 by congruence.
        exfalso. apply (Hold key1 _ H1). reflexivity.
      * rewrite lookup_insert_ne in H1 by congruence.
        rewrite lookup_insert_ne in H2 by congruence.
        apply (Hinj key1 key2 node H1 H2).
    + rewrite map_size_insert_None by exact H. rewrite Hsize. reflexivity.
Qed.

(** An invariant of [buildPulldownTable] holds after any calls. *)
Lemma run_invariant (P : state -> Prop) calls st :
  (forall model cws st, P st -> P (build model cws st).2) ->
  P st -> P (run_calls calls st).
Proof.
  intros Hstep. revert st. induction calls as [|[model cws] calls IH]; intros st Hst.
  - exact Hst.
  - simpl. apply IH. apply Hstep. exact Hst.
Qed.

Lemma cache_inv_run calls : cache_inv (run_calls calls initial_state).
Proof. apply run_invariant; [apply cache_inv_build | apply cache_inv_initial]. Qed.

Lemma cache_ok_run calls : cache_ok pow junk_float junk_short (run_calls calls initial_state).
Proof. apply run_invariant; [apply cache_ok_build | apply cache_ok_initial]. Qed.

Lemma all_rows_NoDup : NoDup all_rows.
Proof.
  apply NoDup_ListNoDup. unfold all_rows.
  repeat (constructor; [simpl; intuition discriminate|]). constructor.
Qed.

(** A cache whose keys are among the six parameter rows has at most six
    entries. *)
Lemma cache_inv_size st : cache_inv st -> (size (PULLDOWN_CACHE st) <= 6)%nat.
Proof.
  intros (Hkeys & _ & _).
  rewrite <- size_dom.
  change 6%nat with (length all_rows).
  rewrite <- (size_list_to_set (C := gset cfg_ptr) all_rows all_rows_NoDup).
  apply subseteq_size. intros key Hkey.
  apply elem_of_dom in Hkey. destruct Hkey as [node Hnode].
  apply elem_of_list_to_set. apply list_elem_of_In. apply (Hkeys key node Hnode).
Qed.

(** Cached keys keep their nodes through any calls. *)
Lemma run_keeps_keys calls st key node :
  PULLDOWN_CACHE st !! key = Some node ->
  PULLDOWN_CACHE (run_calls calls st) !! key = Some node.
Proof.
  apply (run_invariant (fun st => PULLDOWN_CACHE st !! key = Some node)).
  intros model cws st'. apply buildPulldownTable_keeps_keys.
Qed.

(** After the calls [calls] the row of each of them is cached. *)
Lemma run_caches calls st (c : ChipModel * CombinedWaveforms) :
  In c calls -> is_Some (PULLDOWN_CACHE (run_calls calls st) !! select_cfgArray c.1 c.2).
Proof.
  revert st. induction calls as [|c0 calls IH]; intros st Hin.
  - destruct Hin.
  - destruct Hin as [->|Hin].
    + simpl. eexists. apply run_keeps_keys. apply buildPulldownTable_cached.
    + simpl. apply IH. exact Hin.
Qed.

(** Calls for cached rows leave the state as it is. *)
Lemma run_cached calls st :
  (forall c, In c calls -> is_Some (PULLDOWN_CACHE st !! select_cfgArray c.1 c.2)) ->
  run_calls calls st = st.
Proof.
  induction calls as [|c0 calls IH]; intros Hall.
  - reflexivity.
  - destruct (Hall c0 (or_introl eq_refl)) as [node Hnode].
    simpl. rewrite (buildPulldownTable_hit pow junk_float junk_short _ _ _ _ Hnode). simpl.
    apply IH. intros c Hc. apply Hall. right. exact Hc.
Qed.

End CacheInvariant.

(** ** The tables do not depend on the rounding of [pow] *)

(** The table of a parameter row, whatever faithful [pow] and whatever
    the uninitialised storage, is the one computed with the correctly
    rounded [pow]. *)
Lemma build_pdTable_pow_nearest pow junk_f junk_s junk_f' junk_s' (key : cfg_ptr) :
  Libm.faithful pow -> In key all_rows ->
  build_pdTable junk_f junk_s (config_row pow key)
  = build_pdTable junk_f' junk_s' (config_row Libm.pow_nearest key).
Proof.
  intros Hpow Hkey.
  apply (matrix_ext _ _ 5 4096); [apply build_pdTable_dims | apply build_pdTable_dims |].
  intros wav idx Hwav Hidx. rewrite !build_pdTable_cells by assumption.
  pose proof (config_row_same_entry pow key Hkey) as Hsame.
  pose proof (config_row_lookup pow key wav Hkey Hwav) as Hcfg.
  pose proof (config_row_lookup Libm.pow_nearest key wav Hkey Hwav) as Hcfg'.
  pose proof (Forall2_lookup_lr _ _ _ _ _ _ Hsame Hcfg Hcfg') as Hentry.
  assert (Hin : In (config_row Libm.pow_nearest key !!! wav) (config_row Libm.pow_nearest key)).
  { apply list_elem_of_In. apply (list_elem_of_lookup_2 _ wav). exact Hcfg'. }
  pose proof (all_rows_checked key _ Hkey Hin) as Hcheck.
  apply divisor_check_spec in Hcheck. destruct Hcheck as [Hagree _].
  generalize dependent (config_row Libm.pow_nearest key !!! wav).
  generalize dependent (config_row pow key !!! wav).
  intros cfg _ cfg' _ Hentry _ Hagree.
  pose proof Hentry as (Hth & Htop & Hps & _).
  do 2 f_equal.
  rewrite <- Hth, <- Htop, <- Hps.
  apply calculatePulldown_ext. intros sb Hsb.
  rewrite (spec_pulldown_same_entry pow junk_f junk_f' cfg cfg' (Z.of_nat idx) sb
             Hpow Hsb Hentry Hagree).
  rewrite <- Htop, <- Hps. reflexivity.
Qed.

(** ** Telling the tables apart *)

(** The pulse-sawtooth cells at phase 4064, row by row, whatever [pow]. *)
Lemma PS_cells_4064 pow :
  PS_cell pow (ConfigAverage, 0%nat) 4064 = 3584 /\
  PS_cell pow (ConfigAverage, 1%nat) 4064 = 4032 /\
  PS_cell pow (ConfigWeak, 0%nat) 4064 = 3072 /\
  PS_cell pow (ConfigWeak, 1%nat) 4064 = 3968 /\
  PS_cell pow (ConfigStrong, 0%nat) 4064 = 3840 /\
  PS_cell pow (ConfigStrong, 1%nat) 4064 = 4064.
Proof. repeat split; vm_compute; reflexivity. Qed.

(** The pulse-sawtooth row of the table of a parameter row. *)
Lemma pdTable_PS_cell pow junk_f junk_s (key : cfg_ptr) (idx : nat) :
  (idx < 4096)%nat ->
  matrix_get (build_pdTable junk_f junk_s (config_row pow key)) 2 idx
  = Some (PS_cell pow key idx).
Proof.
  intros Hidx. rewrite build_pdTable_cells by (lia || exact Hidx).
  unfold PS_cell, PS_entry. cbv zeta.
  generalize (config_row pow key !!! 2%nat). intros cfg.
  rewrite (calculatePulldown_ext junk_f junk_float0
             (build_distancetable junk_f cfg) (build_distancetable junk_float0 cfg)
             (topbit cfg) (pulsestrength cfg) (threshold cfg) (Z.of_nat idx)).
  - reflexivity.
  - intros sb Hsb. rewrite !build_distancetable_entries. reflexivity.
Qed.

(** ** The basic waveform table *)

Lemma tri_checked (phase : Z) : 0 <= phase < 4096 -> tri_check phase = true.
Proof. apply (forallb_zseq tri_check 0 4096). vm_compute. reflexivity. Qed.

(** * The further properties *)

(** X1.  The triangle row of the basic waveform table is a fold of the
    phase: at every index it holds twice the distance of the index from
    the nearer end of 0..4095, so the row reads the same from both ends. *)
Theorem wftable_triangle_fold (cell : nat -> nat -> Z) (idx : nat) :
  (idx < 4096)%nat ->
  matrix_get (wftable (WaveformCalculator cell)) 1 idx
  = Some (2 * Z.min (Z.of_nat idx) (4095 - Z.of_nat idx)) /\
  matrix_get (wftable (WaveformCalculator cell)) 1 (4095 - idx)
  = matrix_get (wftable (WaveformCalculator cell)) 1 idx.
Proof.
  intros Hidx.
  assert (Hcell : forall i, (i < 4096)%nat ->
            matrix_get (wftable (WaveformCalculator cell)) 1 i
            = Some (2 * Z.min (Z.of_nat i) (4095 - Z.of_nat i))).
  { intros i Hi. rewrite wftable_cells by lia. f_equal.
    apply Z.eqb_eq. apply tri_checked. lia. }
  split; [apply Hcell; exact Hidx|].
  rewrite !Hcell by lia. f_equal. lia.
Qed.

Lemma wftable_triangle_fold_witness :
  (1000 < 4096)%nat /\
  (matrix_get (wftable (WaveformCalculator junk_short0)) 1 1000
   = Some (2 * Z.min (Z.of_nat 1000) (4095 - Z.of_nat 1000)) /\
   matrix_get (wftable (WaveformCalculator junk_short0)) 1 (4095 - 1000)
   = matrix_get (wftable (WaveformCalculator junk_short0)) 1 1000).
Proof.
  assert (H : (1000 < 4096)%nat) by lia.
  exact (conj H (wftable_triangle_fold junk_short0 1000 H)).
Defined.

(** X2.  No result depends on what the storage held before it was
    written: [calculatePulldown] returns the same value whatever its
    local arrays held, and the distance table, the pulldown table and the
    basic waveform table are the same whatever the newly allocated arrays
    held. *)
Theorem uninitialised_storage_unobservable
    (junk junk' : nat -> float) (junk_s junk_s' cell cell' : nat -> nat -> Z) :
  (forall dt topbit ps th acc,
     calculatePulldown junk dt topbit ps th acc
     = calculatePulldown junk' dt topbit ps th acc) /\
  (forall cfg, build_distancetable junk cfg = build_distancetable junk' cfg) /\
  (forall cfgArray,
     build_pdTable junk junk_s cfgArray = build_pdTable junk' junk_s' cfgArray) /\
  WaveformCalculator cell = WaveformCalculator cell'.
Proof.
  assert (Hdt : forall cfg, build_distancetable junk cfg = build_distancetable junk' cfg).
  { intros cfg. rewrite !build_distancetable_entries. reflexivity. }
  split; [|split; [exact Hdt|split]].
  - intros dt topbit ps th acc. apply calculatePulldown_ext. reflexivity.
  - intros cfgArray.
    apply (matrix_ext _ _ 5 4096); [apply build_pdTable_dims | apply build_pdTable_dims |].
    intros wav idx Hwav Hidx. rewrite !build_pdTable_cells by assumption.
    generalize (cfgArray !!! wav). intros cfg. rewrite (Hdt cfg).
    rewrite (calculatePulldown_ext junk junk' (build_distancetable junk' cfg)
               (build_distancetable junk' cfg) (topbit cfg) (pulsestrength cfg)
               (threshold cfg) (Z.of_nat idx)); reflexivity.
  - assert (H : wftable (WaveformCalculator cell) = wftable (WaveformCalculator cell')).
    { apply (matrix_ext _ _ 4 4096); [apply wftable_dims | apply wftable_dims |].
      intros row idx Hrow Hidx. rewrite !wftable_cells by assumption. reflexivity. }
    destruct (WaveformCalculator cell), (WaveformCalculator cell'). simpl in H.
    rewrite H. reflexivity.
Qed.

(** X3.  With a threshold that is not negative, [calculatePulldown] only
    clears bits: every bit of the result is a bit of the accumulator, so
    the result is at most the accumulator, and it is 0 for the
    accumulator 0. *)
Theorem calculatePulldown_clears_only junk dt topbit ps th acc :
  Float.gt 0%flt th = false ->
  Z.land (calculatePulldown junk dt topbit ps th acc) acc
  = calculatePulldown junk dt topbit ps th acc /\
  (0 <= acc -> calculatePulldown junk dt topbit ps th acc <= acc) /\
  calculatePulldown junk dt topbit ps th 0 = 0.
Proof.
  intros Hth. split; [|split].
  - apply calculatePulldown_land. exact Hth.
  - intros Hacc. apply land_le; [exact Hacc|]. apply calculatePulldown_land. exact Hth.
  - pose proof (calculatePulldown_range junk dt topbit ps th 0) as Hr.
    pose proof (land_le _ 0 (Z.le_refl 0) (calculatePulldown_land junk dt topbit ps th 0 Hth)).
    lia.
Qed.

Lemma calculatePulldown_clears_only_witness :
  Float.gt 0%flt 0.5%flt = false /\
  (Z.land (calculatePulldown junk_float0 flat_distancetable 1%flt 0%flt 0.5%flt 0xf0f) 0xf0f
   = calculatePulldown junk_float0 flat_distancetable 1%flt 0%flt 0.5%flt 0xf0f /\
   (0 <= 0xf0f ->
    calculatePulldown junk_float0 flat_distancetable 1%flt 0%flt 0.5%flt 0xf0f <= 0xf0f) /\
   calculatePulldown junk_float0 flat_distancetable 1%flt 0%flt 0.5%flt 0 = 0).
Proof.
  assert (Hth : Float.gt 0%flt 0.5%flt = false) by reflexivity.
  exact (conj Hth
           (calculatePulldown_clears_only junk_float0 flat_distancetable 1%flt 0%flt 0.5%flt
              0xf0f Hth)).
Defined.

(** X4.  A threshold that is a NaN or [+inf] is exceeded by nothing:
    [calculatePulldown] then returns 0 for every accumulator. *)
Theorem calculatePulldown_unreachable_threshold junk dt topbit ps acc :
  calculatePulldown junk dt topbit ps S754_nan acc = 0 /\
  calculatePulldown junk dt topbit ps (S754_infinity false) acc = 0.
Proof.
  split.
  - pose proof (calculatePulldown_range junk dt topbit ps S754_nan acc) as Hr.
    apply low_bits_eq; [lia | lia |].
    intros sb Hsb. rewrite calculatePulldown_testbit by exact Hsb.
    rewrite gt_nan. symmetry. apply Z.bits_0.
  - pose proof (calculatePulldown_range junk dt topbit ps (S754_infinity false) acc) as Hr.
    apply low_bits_eq; [lia | lia |].
    intros sb Hsb. rewrite calculatePulldown_testbit by exact Hsb.
    rewrite gt_infinity. symmetry. apply Z.bits_0.
Qed.

(** X5.  In the pulldown table of every model and variance class, the
    entry of every waveform at every phase has no bit that the phase does
    not have: it is between 0 and the phase, and 0 at phase 0. *)
Theorem pdTable_entries_within_phase pow junk_f junk_s model cws (wav idx : nat) :
  (wav < 5)%nat -> (idx < 4096)%nat ->
  exists v,
    matrix_get (build_pdTable junk_f junk_s (config_row pow (select_cfgArray model cws)))
      wav idx = Some v /\
    Z.land v (Z.of_nat idx) = v /\ 0 <= v <= Z.of_nat idx.
Proof.
  intros Hwav Hidx.
  pose proof (select_cfgArray_row model cws) as Hkey.
  set (key := select_cfgArray model cws) in *.
  pose proof (thresholds_nonneg pow key Hkey) as Hths.
  pose proof (config_row_lookup pow key wav Hkey Hwav) as Hcfg.
  pose proof (proj1 (Forall_lookup _ _) Hths wav _ Hcfg) as Hth. simpl in Hth.
  rewrite build_pdTable_cells by assumption.
  generalize dependent (config_row pow key !!! wav). intros cfg _ Hth.
  pose proof (calculatePulldown_range junk_f (build_distancetable junk_f cfg) (topbit cfg)
                (pulsestrength cfg) (threshold cfg) (Z.of_nat idx)) as Hr.
  pose proof (calculatePulldown_land junk_f (build_distancetable junk_f cfg) (topbit cfg)
                (pulsestrength cfg) (threshold cfg) (Z.of_nat idx) Hth) as Hland.
  rewrite to_short_small by (change (2 ^ 15) with 32768; lia).
  eexists. split; [reflexivity|]. split; [exact Hland|].
  split; [lia|]. apply land_le; [lia | exact Hland].
Qed.

Lemma pdTable_entries_within_phase_witness :
  (2 < 5)%nat /\ (100 < 4096)%nat /\
  (exists v,
     matrix_get
       (build_pdTable junk_float0 junk_short0
          (config_row Libm.pow_nearest (select_cfgArray MOS6581 AVERAGE)))
       2 100 = Some v /\
     Z.land v (Z.of_nat 100) = v /\ 0 <= v <= Z.of_nat 100).
Proof.
  assert (Hwav : (2 < 5)%nat) by lia.
  assert (Hidx : (100 < 4096)%nat) by lia.
  exact (conj Hwav (conj Hidx
           (pdTable_entries_within_phase Libm.pow_nearest junk_float0 junk_short0
              MOS6581 AVERAGE 2 100 Hwav Hidx))).
Defined.

(** X6.  A call of [buildPulldownTable] never touches what is there:
    every table of the heap stays at its address with its contents, every
    cached key keeps its node, and at most one table is computed. *)
Theorem buildPulldownTable_preserves pow junk_f junk_s model cws st :
  let r := buildPulldownTable pow junk_f junk_s model cws st in
  (forall p t, deref st p = Some t -> deref r.2 p = Some t) /\
  (forall key node,
     PULLDOWN_CACHE st !! key = Some node -> PULLDOWN_CACHE r.2 !! key = Some node) /\
  (pulldown_builds st <= pulldown_builds r.2 <= S (pulldown_builds st))%nat.
Proof.
  cbv zeta. split; [|split].
  - intros p t. apply buildPulldownTable_keeps_tables.
  - intros key node. apply buildPulldownTable_keeps_keys.
  - unfold buildPulldownTable. cbv zeta.
    destruct (PULLDOWN_CACHE st !! select_cfgArray model cws); simpl; lia.
Qed.

(** X7.  When the selected parameter row is not cached,
    [buildPulldownTable] computes its table once and stores it in a node
    that was not in use: the returned node is new, it holds the table of
    the row, the row is cached under it and nothing else is added to the
    cache. *)
Theorem buildPulldownTable_miss_builds pow junk_f junk_s model cws st :
  PULLDOWN_CACHE st !! select_cfgArray model cws = None ->
  let r := buildPulldownTable pow junk_f junk_s model cws st in
  heap st !! r.1 = None /\
  deref r.2 r.1
  = Some (build_pdTable junk_f junk_s (config_row pow (select_cfgArray model cws))) /\
  PULLDOWN_CACHE r.2 = <[select_cfgArray model cws := r.1]> (PULLDOWN_CACHE st) /\
  pulldown_builds r.2 = S (pulldown_builds st).
Proof.
  intros H.
  pose proof (buildPulldownTable_miss pow junk_f junk_s model cws st H) as Hmiss.
  cbv zeta in *. destruct Hmiss as (Hnew & Htable & Hbuilds & _).
  split; [exact Hnew|]. split; [exact Htable|]. split; [|exact Hbuilds].
  unfold buildPulldownTable. cbv zeta. rewrite H. reflexivity.
Qed.

Lemma buildPulldownTable_miss_builds_witness :
  PULLDOWN_CACHE initial_state !! select_cfgArray MOS8580 WEAK = None /\
  (let r := buildPulldownTable Libm.pow_nearest junk_float0 junk_short0 MOS8580 WEAK
              initial_state in
   heap initial_state !! r.1 = None /\
   deref r.2 r.1
   = Some (build_pdTable junk_float0 junk_short0
             (config_row Libm.pow_nearest (select_cfgArray MOS8580 WEAK))) /\
   PULLDOWN_CACHE r.2 = <[select_cfgArray MOS8580 WEAK := r.1]> (PULLDOWN_CACHE initial_state) /\
   pulldown_builds r.2 = S (pulldown_builds initial_state)).
Proof.
  assert (H : PULLDOWN_CACHE initial_state !! select_cfgArray MOS8580 WEAK = None)
    by apply lookup_empty.
  exact (conj H
           (buildPulldownTable_miss_builds Libm.pow_nearest junk_float0 junk_short0
              MOS8580 WEAK initial_state H)).
Defined.

(** X8.  Whatever calls of [buildPulldownTable] are made from the empty
    cache, with whatever models and variance classes, the cache never
    holds more than six tables, and every table that was computed is in
    the cache: none is computed twice. *)
Theorem cache_at_most_six pow junk_f junk_s (calls : list (ChipModel * CombinedWaveforms)) :
  let st := run pow junk_f junk_s calls initial_state in
  (size (PULLDOWN_CACHE st) <= 6)%nat /\
  pulldown_builds st = size (PULLDOWN_CACHE st) /\
  (pulldown_builds st <= 6)%nat.
Proof.
  cbv zeta.
  pose proof (cache_inv_run pow junk_f junk_s calls) as Hinv.
  pose proof (cache_inv_size _ Hinv) as Hsize.
  destruct Hinv as (_ & _ & Hbuilds).
  split; [exact Hsize|]. split; [exact Hbuilds|]. rewrite Hbuilds. exact Hsize.
Qed.

(** X9.  After any calls made from the empty cache, a call of
    [buildPulldownTable] returns the address of the table computed from
    the parameter row that the model and the variance class select: what
    the table holds does not depend on the calls made before. *)
Theorem buildPulldownTable_after_calls pow junk_f junk_s
    (calls : list (ChipModel * CombinedWaveforms)) model cws :
  let r := buildPulldownTable pow junk_f junk_s model cws
             (run pow junk_f junk_s calls initial_state) in
  deref r.2 r.1
  = Some (build_pdTable junk_f junk_s (config_row pow (select_cfgArray model cws))).
Proof.
  cbv zeta. apply buildPulldownTable_deref. apply cache_ok_run.
Qed.

(** X10.  After any calls made from the empty cache, two calls that
    select different parameter rows return different addresses: no two
    rows share a table. *)
Theorem distinct_rows_distinct_nodes pow junk_f junk_s
    (calls : list (ChipModel * CombinedWaveforms)) model1 cws1 model2 cws2 :
  select_cfgArray model1 cws1 <> select_cfgArray model2 cws2 ->
  let r1 := buildPulldownTable pow junk_f junk_s model1 cws1
              (run pow junk_f junk_s calls initial_state) in
  let r2 := buildPulldownTable pow junk_f junk_s model2 cws2 r1.2 in
  r1.1 <> r2.1.
Proof.
  intros Hne. cbv zeta. intros Heq.
  set (st := run pow junk_f junk_s calls initial_state) in *.
  set (r1 := buildPulldownTable pow junk_f junk_s model1 cws1 st) in *.
  set (r2 := buildPulldownTable pow junk_f junk_s model2 cws2 r1.2) in *.
  assert (Hinv : cache_inv r2.2).
  { apply cache_inv_build. apply cache_inv_build. apply cache_inv_run. }
  destruct Hinv as (_ & Hinj & _).
  apply Hne. apply (Hinj _ _ r2.1).
  - rewrite <- Heq. apply buildPulldownTable_keeps_keys. apply buildPulldownTable_cached.
  - apply buildPulldownTable_cached.
Qed.

Lemma distinct_rows_distinct_nodes_witness :
  select_cfgArray MOS6581 AVERAGE <> select_cfgArray MOS8580 AVERAGE /\
  (let r1 := buildPulldownTable Libm.pow_nearest junk_float0 junk_short0 MOS6581 AVERAGE
               (run Libm.pow_nearest junk_float0 junk_short0 [] initial_state) in
   let r2 := buildPulldownTable Libm.pow_nearest junk_float0 junk_short0 MOS8580 AVERAGE
               r1.2 in
   r1.1 <> r2.1).
Proof.
  assert (H : select_cfgArray MOS6581 AVERAGE <> select_cfgArray MOS8580 AVERAGE)
    by discriminate.
  exact (conj H
           (distinct_rows_distinct_nodes Libm.pow_nearest junk_float0 junk_short0 []
              MOS6581 AVERAGE MOS8580 AVERAGE H)).
Defined.

(** X11.  The pulldown tables do not depend on how the C library rounds
    [pow]: for every model and variance class, any two [pow] that return
    one of the two doubles enclosing the exact power give the same
    table. *)
Theorem tables_independent_of_pow pow pow' junk_f junk_s junk_f' junk_s' model cws :
  Libm.faithful pow -> Libm.faithful pow' ->
  build_pdTable junk_f junk_s (config_row pow (select_cfgArray model cws))
  = build_pdTable junk_f' junk_s' (config_row pow' (select_cfgArray model cws)).
Proof.
  intros Hpow Hpow'.
  pose proof (select_cfgArray_row model cws) as Hkey.
  rewrite (build_pdTable_pow_nearest pow junk_f junk_s junk_float0 junk_short0 _ Hpow Hkey).
  rewrite (build_pdTable_pow_nearest pow' junk_f' junk_s' junk_float0 junk_short0 _ Hpow' Hkey).
  reflexivity.
Qed.

Lemma tables_independent_of_pow_witness :
  Libm.faithful Libm.pow_nearest /\ Libm.faithful Libm.pow_nearest /\
  build_pdTable junk_float0 junk_short0
    (config_row Libm.pow_nearest (select_cfgArray MOS8580 STRONG))
  = build_pdTable (fun _ => 1%flt) (fun _ _ => 1)
      (config_row Libm.pow_nearest (select_cfgArray MOS8580 STRONG)).
Proof.
  exact (conj pow_nearest_faithful (conj pow_nearest_faithful
           (tables_independent_of_pow Libm.pow_nearest Libm.pow_nearest
              junk_float0 junk_short0 (fun _ => 1%flt) (fun _ _ => 1) MOS8580 STRONG
              pow_nearest_faithful pow_nearest_faithful))).
Defined.

(** X12.  The six parameter rows give six different tables: whenever
    two calls select different rows, the tables computed for them differ
    (in the pulse-sawtooth entry at phase 4064), whatever [pow] is. *)
Theorem tables_pairwise_distinct pow junk_f junk_s model1 cws1 model2 cws2 :
  select_cfgArray model1 cws1 <> select_cfgArray model2 cws2 ->
  matrix_get (build_pdTable junk_f junk_s (config_row pow (select_cfgArray model1 cws1)))
    2 4064
  <> matrix_get (build_pdTable junk_f junk_s (config_row pow (select_cfgArray model2 cws2)))
       2 4064 /\
  build_pdTable junk_f junk_s (config_row pow (select_cfgArray model1 cws1))
  <> build_pdTable junk_f junk_s (config_row pow (select_cfgArray model2 cws2)).
Proof.
  intros Hne.
  assert (Hcell :
            matrix_get (build_pdTable junk_f junk_s (config_row pow (select_cfgArray model1 cws1)))
              2 4064
            <> matrix_get
                 (build_pdTable junk_f junk_s (config_row pow (select_cfgArray model2 cws2)))
                 2 4064).
  { rewrite !pdTable_PS_cell by lia.
    pose proof (select_cfgArray_row model1 cws1) as Hkey1.
    pose proof (select_cfgArray_row model2 cws2) as Hkey2.
    destruct (PS_cells_4064 pow) as (H1 & H2 & H3 & H4 & H5 & H6).
    generalize dependent (select_cfgArray model1 cws1).
    generalize dependent (select_cfgArray model2 cws2).
    intros key2 Hkey2 key1 Hne Hkey1. unfold all_rows in Hkey1, Hkey2.
    cbn [In] in Hkey1, Hkey2.
    repeat (destruct Hkey1 as [<- | Hkey1]);
      repeat (destruct Hkey2 as [<- | Hkey2]);
      try contradiction; try congruence;
      rewrite ?H1, ?H2, ?H3, ?H4, ?H5, ?H6; discriminate. }
  split; [exact Hcell|]. intros Heq. apply Hcell. rewrite Heq. reflexivity.
Qed.

Lemma tables_pairwise_distinct_witness :
  select_cfgArray MOS6581 WEAK <> select_cfgArray MOS8580 WEAK /\
  (matrix_get
     (build_pdTable junk_float0 junk_short0
        (config_row Libm.pow_nearest (select_cfgArray MOS6581 WEAK))) 2 4064
   <> matrix_get
        (build_pdTable junk_float0 junk_short0
           (config_row Libm.pow_nearest (select_cfgArray MOS8580 WEAK))) 2 4064 /\
   build_pdTable junk_float0 junk_short0
     (config_row Libm.pow_nearest (select_cfgArray MOS6581 WEAK))
   <> build_pdTable junk_float0 junk_short0
        (config_row Libm.pow_nearest (select_cfgArray MOS8580 WEAK))).
Proof.
  assert (H : select_cfgArray MOS6581 WEAK <> select_cfgArray MOS8580 WEAK) by discriminate.
  exact (conj H
           (tables_pairwise_distinct Libm.pow_nearest junk_float0 junk_short0
              MOS6581 WEAK MOS8580 WEAK H)).
Defined.


(** X14.  Calls that repeat earlier ones change nothing: after the calls
    [calls], any further calls whose model and variance class occurred
    among them leave the cache, the heap and the count of computed tables
    as they are. *)
Theorem run_replay pow junk_f junk_s
    (calls calls' : list (ChipModel * CombinedWaveforms)) st :
  (forall c, In c calls' -> In c calls) ->
  run pow junk_f junk_s (calls ++ calls') st = run pow junk_f junk_s calls st.
Proof.
  intros Hincl. unfold run at 1. rewrite fold_left_app.
  apply run_cached. intros c Hc. apply run_caches. apply Hincl. exact Hc.
Qed.

Lemma run_replay_witness :
  (forall c, In c [(MOS8580, AVERAGE)] -> In c [(MOS6581, WEAK); (MOS8580, AVERAGE)]) /\
  run Libm.pow_nearest junk_float0 junk_short0
    ([(MOS6581, WEAK); (MOS8580, AVERAGE)] ++ [(MOS8580, AVERAGE)]) initial_state
  = run Libm.pow_nearest junk_float0 junk_short0 [(MOS6581, WEAK); (MOS8580, AVERAGE)]
      initial_state.
Proof.
  assert (H : forall c, In c [(MOS8580, AVERAGE)] ->
                        In c [(MOS6581, WEAK); (MOS8580, AVERAGE)]).
  { intros c [<-|[]]. right. left. reflexivity. }
  exact (conj H
           (run_replay Libm.pow_nearest junk_float0 junk_short0
              [(MOS6581, WEAK); (MOS8580, AVERAGE)] [(MOS8580, AVERAGE)] initial_state H)).
Defined.

(** X15.  No array is read out of its bounds: for every model and
    variance class the selected parameter row has an entry for each of
    the five waveforms, and for all bit positions [sb] and [cb] in 0..11
    the index [sb - cb + 12] that [calculatePulldown] reads lies in the 25
    entries of the distance table built for that entry. *)
Theorem array_reads_in_bounds pow junk model cws (wav sb cb : nat) :
  (wav < 5)%nat -> (sb < 12)%nat -> (cb < 12)%nat ->
  exists cfg w,
    config_row pow (select_cfgArray model cws) !! wav = Some cfg /\
    0 <= Z.of_nat sb - Z.of_nat cb + 12 < 25 /\
    length (build_distancetable junk cfg) = 25%nat /\
    build_distancetable junk cfg !! Z.to_nat (Z.of_nat sb - Z.of_nat cb + 12) = Some w /\
    spec_weight (build_distancetable junk cfg) sb cb = w.
Proof.
  intros Hwav Hsb Hcb.
  pose proof (config_row_lookup pow _ wav (select_cfgArray_row model cws) Hwav) as Hcfg.
  exists (config_row pow (select_cfgArray model cws) !!! wav).
  generalize dependent (config_row pow (select_cfgArray model cws) !!! wav).
  intros cfg Hcfg.
  assert (Hlen : length (build_distancetable junk cfg) = 25%nat).
  { rewrite build_distancetable_entries. reflexivity. }
  destruct (lookup_lt_is_Some_2 (build_distancetable junk cfg)
              (Z.to_nat (Z.of_nat sb - Z.of_nat cb + 12))) as [w Hw]; [rewrite Hlen; lia|].
  exists w. split; [exact Hcfg|]. split; [lia|]. split; [exact Hlen|].
  split; [exact Hw|]. unfold spec_weight.
  apply list_lookup_total_correct. exact Hw.
Qed.

Lemma array_reads_in_bounds_witness :
  (4 < 5)%nat /\ (0 < 12)%nat /\ (11 < 12)%nat /\
  (exists cfg w,
     config_row Libm.pow_nearest (select_cfgArray MOS8580 STRONG) !! 4%nat = Some cfg /\
     0 <= Z.of_nat 0 - Z.of_nat 11 + 12 < 25 /\
     length (build_distancetable junk_float0 cfg) = 25%nat /\
     build_distancetable junk_float0 cfg !! Z.to_nat (Z.of_nat 0 - Z.of_nat 11 + 12) = Some w /\
     spec_weight (build_distancetable junk_float0 cfg) 0 11 = w).
Proof.
  assert (Hwav : (4 < 5)%nat) by lia.
  assert (Hsb : (0 < 12)%nat) by lia.
  assert (Hcb : (11 < 12)%nat) by lia.
  exact (conj Hwav (conj Hsb (conj Hcb
           (array_reads_in_bounds Libm.pow_nearest junk_float0 MOS8580 STRONG 4 0 11
              Hwav Hsb Hcb)))).
Defined.

(** X16.  At the index 0 the linear and the quadratic distance functions
    give the weight 1.0 for every finite distance, the weight that the
    distance table holds at its middle entry for the bit itself. *)
Theorem distance_at_zero (distance : float) :
  Float.is_finite distance = true ->
  linearDistance distance 0 = 1%flt /\ quadraticDistance distance 0 = 1%flt.
Proof.
  destruct distance as [[]|[]| |[] m e]; intros H; try discriminate H;
    split; reflexivity.
Qed.

Lemma distance_at_zero_witness :
  Float.is_finite 0.25%flt = true /\
  (linearDistance 0.25%flt 0 = 1%flt /\ quadraticDistance 0.25%flt 0 = 1%flt).
Proof.
  assert (H : Float.is_finite 0.25%flt = true) by reflexivity.
  exact (conj H (distance_at_zero 0.25%flt H)).
Defined.
